(** * The wallet's Redux store: [src/reducers/index.js]

    A shallow embedding of the root reducer and of the handlers it
    dispatches to, over a small model of the JavaScript values the store
    holds, followed by the properties of the store proved on it.

    Modelling boundary.
    - A JavaScript value is a [JsVal]. Objects are finite maps from property
      names to values, so two objects are equal when they have the same
      own properties; the order of properties is not tracked.
    - Numbers are the integers and NaN. The only arithmetic of the store is
      [a + b === 0] on balances, which on integer-valued doubles holds
      exactly when the integers sum to zero. A number is printed in plain
      decimal, as JavaScript prints an integer below 1e21; the heights,
      timestamps and balances of the store are far below.
    - Only own properties are looked up: a key that names an inherited
      member ([constructor], [toString], [findIndex], ...) is outside the
      model, and arrays have no holes.
    - A function value is known by a handle only. The functions the store
      receives are promise resolvers: a call records its argument and
      returns [undefined].
    - A reducer runs in the monad [M]: it logs the calls it makes to the
      outside (resolver, local storage) and ends in a value or in a thrown
      exception. *)

From Stdlib Require Import ZArith Ascii String DecimalString.
From stdpp Require Import gmap strings list fin_maps.

Set Warnings "-register-all".

(** ** JavaScript values *)

Inductive JsVal : Type :=
| JUndefined
| JNull
| JBool (b : bool)
| JNum (n : Z)
| JNaN
| JStr (s : string)
| JFun (h : nat)
| JArr (elems : list JsVal) (props : gmap string JsVal)
| JObj (props : gmap string JsVal).

Inductive Exn : Type := TypeError | ReferenceError.

(** What a reducer does to the outside world. *)
Inductive Effect : Type :=
| ResolverCalled (h : nat) (arg : JsVal)
| WalletVersionStored (v : JsVal).

Record M (A : Type) : Type := Run { log : list Effect; outcome : Exn + A }.
Arguments Run {A} log outcome.
Arguments log {A} m.
Arguments outcome {A} m.

Definition ret {A} (a : A) : M A := Run [] (inr a).
Definition throw {A} (e : Exn) : M A := Run [] (inl e).
Definition perform (e : Effect) : M unit := Run [e] (inr tt).

Definition bind {A B} (m : M A) (f : A → M B) : M B :=
  match outcome m with
  | inl e => Run (log m) (inl e)
  | inr a => Run (log m ++ log (f a)) (outcome (f a))
  end.

#[global] Instance M_ret : MRet M := @ret.
#[global] Instance M_bind : MBind M := λ A B f m, bind m f.

(** *** Conversions *)

(** ToBoolean. *)
Definition truthy (v : JsVal) : bool :=
  match v with
  | JUndefined | JNull | JNaN => false
  | JBool b => b
  | JNum n => negb (n =? 0)%Z
  | JStr s => negb (String.eqb s "")
  | JFun _ | JArr _ _ | JObj _ => true
  end.

Definition num_str (n : Z) : string := NilZero.string_of_int (Z.to_int n).

(** ToString; it is also ToPropertyKey, the model having no symbols. *)
Fixpoint to_str (v : JsVal) : string :=
  match v with
  | JUndefined => "undefined"
  | JNull => "null"
  | JBool true => "true"
  | JBool false => "false"
  | JNum n => num_str n
  | JNaN => "NaN"
  | JStr s => s
  | JFun _ => "function () { [native code] }"
  | JArr elems _ =>
      (fix join (l : list JsVal) : string :=
         match l with
         | [] => ""
         | x :: rest =>
             let item := match x with
                         | JUndefined | JNull => ""
                         | _ => to_str x
                         end in
             match rest with
             | [] => item
             | _ :: _ => item +:+ "," +:+ join rest
             end
         end) elems
  | JObj _ => "[object Object]"
  end.

(** A property name is an array index when it is the canonical decimal
    form of an integer below 2^32 - 1. *)
Definition index_of_key (k : string) : option nat :=
  match NilZero.uint_of_string k with
  | Some u =>
      let n := Z.of_N (N.of_uint u) in
      if String.eqb (num_str n) k && (n <? 4294967295)%Z
      then Some (Z.to_nat n) else None
  | None => None
  end.

Definition str_len (s : string) : Z := Z.of_nat (String.length s).

(** *** Properties *)

(** The own property [k] of [v], if it has one. *)
Definition own (v : JsVal) (k : string) : option JsVal :=
  match v with
  | JObj p => p !! k
  | JArr es p =>
      if String.eqb k "length" then Some (JNum (Z.of_nat (length es)))
      else match index_of_key k with
           | Some i => es !! i
           | None => p !! k
           end
  | JStr s =>
      if String.eqb k "length" then Some (JNum (str_len s))
      else match index_of_key k with
           | Some i => (λ c, JStr (String c EmptyString)) <$> String.get i s
           | None => None
           end
  | _ => None
  end.

Definition nullish (v : JsVal) : bool :=
  match v with JUndefined | JNull => true | _ => false end.

(** What [v.k] reads: [undefined] where [v] has no such property. *)
Definition field (v : JsVal) (k : string) : JsVal :=
  default JUndefined (own v k).

(** [v.k] and [v[k]]: reading a property of [undefined] or [null] throws. *)
Definition get (v : JsVal) (k : string) : M JsVal :=
  if nullish v then throw TypeError else mret (field v k).

(** [k in v], on own properties. *)
Definition has (v : JsVal) (k : string) : bool :=
  match own v k with Some _ => true | None => false end.

Definition chars (s : string) : list JsVal :=
  (λ c, JStr (String c EmptyString)) <$> list_ascii_of_string s.

Definition indexed (l : list JsVal) : gmap string JsVal :=
  list_to_map (imap (λ i x, (num_str (Z.of_nat i), x)) l).

(** The own enumerable properties, which is what [{...v}] and
    [Object.assign] copy and what [Object.entries] lists. Spreading
    [undefined], [null], a number, a boolean or a function copies nothing. *)
Definition own_props (v : JsVal) : gmap string JsVal :=
  match v with
  | JObj p => p
  | JArr es p => indexed es ∪ p
  | JStr s => indexed (chars s)
  | _ => ∅
  end.

(** [Object.assign({}, a, b)]: the properties of [b] win. *)
Definition assign2 (a b : JsVal) : gmap string JsVal :=
  own_props b ∪ own_props a.

(** [[...v]]: only arrays and strings are iterable. *)
Definition spread_iter (v : JsVal) : M (list JsVal) :=
  match v with
  | JArr es _ => mret es
  | JStr s => mret (chars s)
  | _ => throw TypeError
  end.

(** [arr[i] = v] on an array: an index in range replaces the element, an
    index past the end extends the array, and a negative number is no array
    index at all: it names an ordinary property and leaves the elements and
    [length] alone. *)
Definition arr_set (es : list JsVal) (ps : gmap string JsVal) (i : Z) (v : JsVal)
  : JsVal :=
  if (i <? 0)%Z then JArr es (<[num_str i := v]> ps)
  else if (i <? Z.of_nat (length es))%Z then JArr (<[Z.to_nat i := v]> es) ps
  else JArr (es ++ replicate (Z.to_nat i - length es) JUndefined ++ [v]) ps.

(** *** Operators *)

Section Operators.
(** Two objects, or two arrays, are [===] when they are the same
    reference. Values carry no reference, so the answer for a pair of
    compound values is left to [same_ref]; nothing is assumed of it. *)
Variable same_ref : JsVal → JsVal → bool.

Definition strict_eq (a b : JsVal) : bool :=
  match a, b with
  | JUndefined, JUndefined => true
  | JNull, JNull => true
  | JBool x, JBool y => Bool.eqb x y
  | JNum x, JNum y => (x =? y)%Z
  | JStr x, JStr y => String.eqb x y
  | JFun g, JFun h => Nat.eqb g h
  | JArr _ _, JArr _ _ => same_ref a b
  | JObj _, JObj _ => same_ref a b
  | _, _ => false
  end.
End Operators.

(** ToNumber on the values that ToPrimitive leaves non-strings; [None]
    stands for NaN. Strings, arrays, objects and functions are not numeric:
    with one of them [+] concatenates. *)
Definition to_number (v : JsVal) : option (option Z) :=
  match v with
  | JUndefined | JNaN => Some None
  | JNull => Some (Some 0%Z)
  | JBool b => Some (Some (if b then 1 else 0)%Z)
  | JNum n => Some (Some n)
  | _ => None
  end.

(** [a + b]. *)
Definition js_add (a b : JsVal) : JsVal :=
  match to_number a, to_number b with
  | Some (Some x), Some (Some y) => JNum (x + y)
  | Some _, Some _ => JNaN
  | _, _ => JStr (to_str a +:+ to_str b)
  end.

(** *** lodash *)

(** Modelled from lodash's documentation, the library being no part of the
    repository. [get(object, path, dflt)] walks [path] from [object] and
    answers [dflt] where the walk ends in [undefined]. A string path that
    is itself a property of [object], or that has none of the characters of
    the path syntax, is a single key; any other is split at its dots. The
    bracket notation of paths is not interpreted: what is proved of a
    handler that calls [get] is proved for keys without path syntax. *)
Fixpoint split_dots (cur : string) (s : string) : list string :=
  match s with
  | EmptyString => [cur]
  | String c r =>
      if Ascii.eqb c "."%char then cur :: split_dots "" r
      else split_dots (cur +:+ String c EmptyString) r
  end.

Definition path_syntax (s : string) : bool :=
  existsb (λ c, Ascii.eqb c "."%char || Ascii.eqb c "["%char
                || Ascii.eqb c "]"%char)
    (list_ascii_of_string s).

Definition lodash_path (object path : JsVal) : list string :=
  match path with
  | JArr es _ => to_str <$> es
  | JStr s =>
      if negb (path_syntax s) || has object s then [s] else split_dots "" s
  | _ => [to_str path]
  end.

Fixpoint lodash_walk (object : JsVal) (path : list string) : JsVal :=
  match path with
  | [] => object
  | k :: rest =>
      if nullish object then JUndefined
      else lodash_walk (field object k) rest
  end.

Definition lodash_get (object path dflt : JsVal) : JsVal :=
  if nullish object then dflt
  else match lodash_path object path with
       | [] => dflt
       | p => match lodash_walk object p with
              | JUndefined => dflt
              | r => r
              end
       end.

(** [findIndex] of lodash and of [Array.prototype], with a predicate that
    may throw: the index of the first element the predicate accepts, or -1. *)
Fixpoint find_index (p : JsVal → M bool) (l : list JsVal) (i : Z) : M Z :=
  match l with
  | [] => mret (-1)%Z
  | x :: rest =>
      b ← p x;
      if b : bool then mret i else find_index p rest (i + 1)%Z
  end.

(** [{...base, k1: v1, k2: v2}]: the fields are written in order. *)
Definition with_fields (base : gmap string JsVal) (l : list (string * JsVal))
  : JsVal :=
  JObj (foldl (λ m kv, <[kv.1 := kv.2]> m) base l).

(** An object literal. *)
Definition obj (l : list (string * JsVal)) : JsVal := with_fields ∅ l.

(** [f(arg)]: calling anything but a function throws. *)
Definition call (f arg : JsVal) : M JsVal :=
  match f with
  | JFun h => _ ← perform (ResolverCalled h arg); mret JUndefined
  | _ => throw TypeError
  end.

(** [recv.findIndex(p)]: only arrays have the method. *)
Definition array_findIndex (recv : JsVal) (p : JsVal → M bool) : M Z :=
  match recv with
  | JArr es _ => find_index p es 0%Z
  | _ => throw TypeError
  end.

(** [Object.entries(v)], in the order of the map rather than of insertion:
    the loop of the reducer that runs over it writes one key per entry, and
    the object it builds does not depend on the order. *)
Definition entries (v : JsVal) : M (list (string * JsVal)) :=
  if nullish v then throw TypeError else mret (map_to_list (own_props v)).

(** A [for ... of] loop whose body updates the loop state [s]. *)
Fixpoint for_of {A S} (l : list A) (body : A → S → M S) (s : S) : M S :=
  match l with
  | [] => mret s
  | x :: rest => s' ← body x s; for_of rest body s'
  end.

(** ** What the reducer imports

    The modules behind these imports are not part of the sources at hand:
    the action type names of [../actions], the status names of
    [../sagas/tokens], [../sagas/wallet] and [../utils/atomicSwap], the
    constants of [../constants] and of the wallet library, and
    [helpersUtils.isAllAuthority]. The reducer is a function of them. *)

Record ActionTypes : Type := {
  SET_SERVER_INFO : string;
  TOKEN_FETCH_BALANCE_REQUESTED : string;
  TOKEN_FETCH_BALANCE_SUCCESS : string;
  TOKEN_FETCH_BALANCE_FAILED : string;
  TOKEN_FETCH_HISTORY_REQUESTED : string;
  TOKEN_FETCH_HISTORY_SUCCESS : string;
  TOKEN_FETCH_HISTORY_FAILED : string;
  SET_ENABLE_ATOMIC_SWAP : string;
  PROPOSAL_LIST_UPDATED : string;
  PROPOSAL_FETCH_REQUESTED : string;
  PROPOSAL_FETCH_SUCCESS : string;
  PROPOSAL_FETCH_FAILED : string;
  PROPOSAL_UPDATED : string;
  PROPOSAL_TOKEN_FETCH_REQUESTED : string;
  PROPOSAL_TOKEN_FETCH_SUCCESS : string;
  PROPOSAL_TOKEN_FETCH_FAILED : string;
  PROPOSAL_REMOVED : string;
  PROPOSAL_IMPORTED : string;
  TOKEN_INVALIDATE_HISTORY : string;
  TOKEN_INVALIDATE_BALANCE : string;
  ON_START_WALLET_LOCK : string;
  START_WALLET_REQUESTED : string;
  START_WALLET_SUCCESS : string;
  START_WALLET_FAILED : string;
  WALLET_BEST_BLOCK_UPDATE : string;
  SET_NAVIGATE_TO : string;
  SET_UNLEASH_CLIENT : string;
  SET_FEATURE_TOGGLES : string;
  FEATURE_TOGGLE_INITIALIZED : string;
  UPDATE_TX_HISTORY : string;
  WALLET_CHANGE_STATE : string;
  SET_MINING_SERVER : string;
  SET_NATIVE_TOKEN_DATA : string
}.

Record StatusNames : Type := {
  LOADING : string;
  READY : string;
  FAILED : string;
  INVALIDATED : string
}.

Record Env : Type := {
  NATIVE_TOKEN_UID : string;
  VERSION : JsVal;
  FEATURE_TOGGLE_DEFAULTS : JsVal;
  types : ActionTypes;
  TOKEN_DOWNLOAD_STATUS : StatusNames;
  WALLET_STATUS : StatusNames;
  PROPOSAL_DOWNLOAD_STATUS : StatusNames;
  isAllAuthority : JsVal → M JsVal;
  same_ref : JsVal → JsVal → bool
}.

(** ** The reducer *)

Section Reducer.
Variable E : Env.
(** The reading of the clock, [new Date().getTime()], during the call. *)
Variable now : Z.

Definition initialState : JsVal :=
  obj [ ("tokensHistory", obj []);
        ("tokensBalance", obj []);
        ("lastSharedAddress", JNull);
        ("lastSharedIndex", JNull);
        ("isVersionAllowed", JUndefined);
        ("isOnline", JBool false);
        ("network", JUndefined);
        ("lastFailedRequest", JUndefined);
        ("requestErrorStatusCode", JUndefined);
        ("tokens", JArr [] ∅);
        ("selectedToken", JStr (NATIVE_TOKEN_UID E));
        ("allTokens", obj []);
        ("loadingAddresses", JBool false);
        ("loadedData", obj [("transactions", JNum 0); ("addresses", JNum 0)]);
        ("height", JNum 0);
        ("walletState", JNull);
        ("tokenMetadata", obj []);
        ("tokenMetadataErrors", JArr [] ∅);
        ("metadataLoaded", JBool false);
        ("useWalletService", JBool false);
        ("lockWalletPromise", JNull);
        ("ledgerWasClosed", JBool false);
        ("serverInfo", obj [("network", JNull); ("version", JNull)]);
        ("startWalletAction", JNull);
        ("navigateTo", obj [("route", JStr ""); ("replace", JBool false)]);
        ("useAtomicSwap", JBool false);
        ("proposals", obj []);
        ("tokensCache", obj []);
        ("featureTogglesInitialized", JBool false);
        ("featureToggles", JObj (own_props (FEATURE_TOGGLE_DEFAULTS E)));
        ("miningServer", JNull);
        ("nativeTokenData", JNull) ].

Definition seq_eq (a b : JsVal) : bool := strict_eq (same_ref E) a b.

(** [action.payload.k]. *)
Definition payload_field (action : JsVal) (k : string) : M JsVal :=
  p ← get action "payload"; get p k.

Definition getTxHistoryFromWSTx (tx tokenUid tokenTxBalance : JsVal) : M JsVal :=
  tx_id ← get tx "tx_id";
  timestamp ← get tx "timestamp";
  is_voided ← get tx "is_voided";
  version ← get tx "version";
  allAuthority ← isAllAuthority E tx;
  mret (obj [ ("tx_id", tx_id);
              ("timestamp", timestamp);
              ("tokenUid", tokenUid);
              ("balance", tokenTxBalance);
              ("is_voided", is_voided);
              ("version", version);
              ("isAllAuthority", allAuthority) ]).

Definition onLoadWalletSuccess (state action : JsVal) : M JsVal :=
  _ ← perform (WalletVersionStored (VERSION E));
  payload ← get action "payload";
  tokens ← get payload "tokens";
  registeredTokens ← get payload "registeredTokens";
  currentAddress ← get payload "currentAddress";
  address ← get currentAddress "address";
  index ← get currentAddress "index";
  mret (with_fields (own_props state)
          [ ("loadingAddresses", JBool false);
            ("lastSharedAddress", address);
            ("lastSharedIndex", index);
            ("allTokens", tokens);
            ("tokens", registeredTokens) ]).

(** The [el.tx_id === tx.tx_id] of the two history scans. *)
Definition same_tx (tx el : JsVal) : M bool :=
  a ← get el "tx_id"; b ← get tx "tx_id"; mret (seq_eq a b).

(** The body of the loop of [onUpdateTx], for one entry of [balances]. *)
Definition onUpdateTx_body (state tx : JsVal) (entry : string * JsVal)
    (updatedHistoryMap : gmap string JsVal) : M (gmap string JsVal) :=
  let '(tokenUid, tokenTxBalance) := entry in
  tokensHistory ← get state "tokensHistory";
  stored ← get tokensHistory tokenUid;
  let currentHistory := if truthy stored then stored else JArr [] ∅ in
  txIndex ← array_findIndex currentHistory (same_tx tx);
  newHistory ← spread_iter currentHistory;
  txHistory ← getTxHistoryFromWSTx tx (JStr tokenUid) tokenTxBalance;
  mret (<[tokenUid := arr_set newHistory ∅ txIndex txHistory]> updatedHistoryMap).

Definition onUpdateTx (state action : JsVal) : M JsVal :=
  payload ← get action "payload";
  tx ← get payload "tx";
  updatedBalanceMap ← get payload "updatedBalanceMap";
  balances ← get payload "balances";
  balanceEntries ← entries balances;
  updatedHistoryMap ← for_of balanceEntries (onUpdateTx_body state tx) ∅;
  tokensHistory ← get state "tokensHistory";
  let newTokensHistory := JObj (assign2 tokensHistory (JObj updatedHistoryMap)) in
  tokensBalance ← get state "tokensBalance";
  let newTokensBalance := JObj (assign2 tokensBalance updatedBalanceMap) in
  mret (JObj (assign2 state (obj [ ("tokensHistory", newTokensHistory);
                                   ("tokensBalance", newTokensBalance) ]))).

Definition onUpdateLoadedData (state action : JsVal) : M JsVal :=
  payload ← get action "payload";
  mret (with_fields (own_props state) [("loadedData", payload)]).

Definition onCleanData (state : JsVal) : M JsVal :=
  isVersionAllowed ← get state "isVersionAllowed";
  loadingAddresses ← get state "loadingAddresses";
  ledgerWasClosed ← get state "ledgerWasClosed";
  featureTogglesInitialized ← get state "featureTogglesInitialized";
  mret (JObj (assign2 initialState
                (obj [ ("isVersionAllowed", isVersionAllowed);
                       ("loadingAddresses", loadingAddresses);
                       ("ledgerWasClosed", ledgerWasClosed);
                       ("featureTogglesInitialized", featureTogglesInitialized) ]))).

Definition onUpdateTokenHistory (state action : JsVal) : M JsVal :=
  payload ← get action "payload";
  token ← get payload "token";
  newHistory ← get payload "newHistory";
  tokensHistory ← get state "tokensHistory";
  stored ← get tokensHistory (to_str token);
  old ← spread_iter (lodash_get tokensHistory (JStr (to_str token +:+ ".data"))
                       (JArr [] ∅));
  new ← spread_iter newHistory;
  mret (with_fields (own_props state)
          [ ("tokensHistory",
             with_fields (own_props tokensHistory)
               [ (to_str token,
                  with_fields (own_props stored)
                    [("data", JArr (old ++ new) ∅)]) ]) ]).

Definition onUpdateHeight (state action : JsVal) : M JsVal :=
  height ← payload_field action "height";
  current ← get state "height";
  if negb (seq_eq height current) then
    htrUpdatedBalance ← payload_field action "htrUpdatedBalance";
    let tokensBalance := obj [(NATIVE_TOKEN_UID E, htrUpdatedBalance)] in
    stateBalance ← get state "tokensBalance";
    let newTokensBalance := JObj (assign2 stateBalance tokensBalance) in
    height' ← payload_field action "height";
    mret (with_fields (own_props state)
            [ ("tokensBalance", newTokensBalance); ("height", height') ])
  else mret state.

Definition tokenMetadataUpdated (state action : JsVal) : M JsVal :=
  payload ← get action "payload";
  data ← get payload "data";
  errors ← get payload "errors";
  tokenMetadata ← get state "tokenMetadata";
  let newMeta := JObj (assign2 tokenMetadata data) in
  tokenMetadataErrors ← get state "tokenMetadataErrors";
  old ← spread_iter tokenMetadataErrors;
  new ← spread_iter errors;
  mret (with_fields (own_props state)
          [ ("metadataLoaded", JBool true);
            ("tokenMetadata", newMeta);
            ("tokenMetadataErrors", JArr (old ++ new) ∅) ]).

(** The local copy [newBalance] of [removeTokenMetadata], as the function
    leaves it. *)
Definition removeTokenMetadata_newBalance (state uid : JsVal)
  : M (gmap string JsVal) :=
  tokensBalance ← get state "tokensBalance";
  let newBalance := own_props tokensBalance in
  if has (JObj newBalance) (to_str uid) then
    stored ← get (JObj newBalance) (to_str uid);
    data ← get stored "data";
    if truthy data then
      let balance := data in
      unlocked ← get balance "unlocked";
      locked ← get balance "locked";
      if seq_eq (js_add unlocked locked) (JNum 0)
      then mret (delete (to_str uid) newBalance)
      else mret newBalance
    else mret newBalance
  else mret newBalance.

Definition removeTokenMetadata (state action : JsVal) : M JsVal :=
  uid ← get action "payload";
  tokenMetadata ← get state "tokenMetadata";
  let newMeta := own_props tokenMetadata in
  let newMeta := if has (JObj newMeta) (to_str uid)
                 then delete (to_str uid) newMeta else newMeta in
  _ ← removeTokenMetadata_newBalance state uid;
  mret (with_fields (own_props state) [("tokenMetadata", JObj newMeta)]).

Definition partiallyUpdateHistoryAndBalance (state action : JsVal) : M JsVal :=
  payload ← get action "payload";
  tokensHistory ← get payload "tokensHistory";
  tokensBalance ← get payload "tokensBalance";
  stateHistory ← get state "tokensHistory";
  stateBalance ← get state "tokensBalance";
  mret (with_fields (own_props state)
          [ ("tokensHistory", JObj (assign2 stateHistory tokensHistory));
            ("tokensBalance", JObj (assign2 stateBalance tokensBalance)) ]).

Definition onSetUseWalletService (state action : JsVal) : M JsVal :=
  useWalletService ← get action "payload";
  mret (with_fields (own_props state) [("useWalletService", useWalletService)]).

Definition onLockWalletForResult (state action : JsVal) : M JsVal :=
  payload ← get action "payload";
  mret (with_fields (own_props state) [("lockWalletPromise", payload)]).

Definition onResolveLockWalletPromise (state action : JsVal) : M JsVal :=
  lockWalletPromise ← get state "lockWalletPromise";
  payload ← get action "payload";
  _ ← call lockWalletPromise payload;
  mret (with_fields (own_props state) [("lockWalletPromise", JNull)]).

Definition resetSelectedTokenIfNeeded (state action : JsVal) : M JsVal :=
  tokensBalance ← get state "tokensBalance";
  selectedToken ← get state "selectedToken";
  stored ← get tokensBalance (to_str selectedToken);
  let balance := if truthy stored then stored
                 else obj [("available", JNum 0); ("locked", JNum 0)] in
  available ← get balance "available";
  locked ← get balance "locked";
  let hasZeroBalance := seq_eq (js_add available locked) (JNum 0) in
  if hasZeroBalance
  then mret (with_fields (own_props state)
               [("selectedToken", JStr (NATIVE_TOKEN_UID E))])
  else mret state.

Definition onNewTokens (state action : JsVal) : M JsVal :=
  stateAllTokens ← get state "allTokens";
  newTokenUid ← payload_field action "uid";
  let allTokens := <[to_str newTokenUid := newTokenUid]> (own_props stateAllTokens) in
  tokens ← payload_field action "tokens";
  mret (with_fields (own_props state)
          [ ("selectedToken", newTokenUid);
            ("tokens", tokens);
            ("allTokens", JObj allTokens) ]).

(** [{...state, [coll]: {...state[coll], [key]: entity}}], the shape in
    which every status handler returns. *)
Definition put_entity (state : JsVal) (coll : string) (key : JsVal)
    (entity : JsVal) : M JsVal :=
  stored ← get state coll;
  mret (with_fields (own_props state)
          [ (coll, with_fields (own_props stored) [(to_str key, entity)]) ]).

Definition onTokenFetchBalanceRequested (state action : JsVal) : M JsVal :=
  tokenId ← get action "tokenId";
  tokensBalance ← get state "tokensBalance";
  let oldState := lodash_get tokensBalance tokenId (obj []) in
  oldStatus ← get oldState "status";
  put_entity state "tokensBalance" tokenId
    (with_fields (own_props oldState)
       [ ("status", JStr (LOADING (TOKEN_DOWNLOAD_STATUS E)));
         ("oldStatus", oldStatus) ]).

Definition onTokenFetchBalanceSuccess (state action : JsVal) : M JsVal :=
  tokenId ← get action "tokenId";
  data ← get action "data";
  tokensBalance ← get state "tokensBalance";
  let oldState := lodash_get tokensBalance tokenId (obj []) in
  oldStatus ← get oldState "status";
  put_entity state "tokensBalance" tokenId
    (obj [ ("status", JStr (READY (TOKEN_DOWNLOAD_STATUS E)));
           ("updatedAt", JNum now);
           ("data", data);
           ("oldStatus", oldStatus) ]).

Definition onTokenFetchBalanceFailed (state action : JsVal) : M JsVal :=
  tokenId ← get action "tokenId";
  tokensBalance ← get state "tokensBalance";
  let oldState := lodash_get tokensBalance tokenId (obj []) in
  oldStatus ← get oldState "status";
  put_entity state "tokensBalance" tokenId
    (obj [ ("status", JStr (FAILED (TOKEN_DOWNLOAD_STATUS E)));
           ("oldStatus", oldStatus) ]).

Definition onTokenFetchHistorySuccess (state action : JsVal) : M JsVal :=
  tokenId ← get action "tokenId";
  data ← get action "data";
  tokensHistory ← get state "tokensHistory";
  let oldState := lodash_get tokensHistory tokenId (obj []) in
  oldStatus ← get oldState "status";
  put_entity state "tokensHistory" tokenId
    (obj [ ("status", JStr (READY (TOKEN_DOWNLOAD_STATUS E)));
           ("updatedAt", JNum now);
           ("data", data);
           ("oldStatus", oldStatus) ]).

Definition onTokenFetchHistoryFailed (state action : JsVal) : M JsVal :=
  tokenId ← get action "tokenId";
  tokensHistory ← get state "tokensHistory";
  let oldState := lodash_get tokensHistory tokenId (obj []) in
  oldStatus ← get oldState "status";
  put_entity state "tokensHistory" tokenId
    (obj [ ("status", JStr (FAILED (TOKEN_DOWNLOAD_STATUS E)));
           ("data", JArr [] ∅);
           ("oldStatus", oldStatus) ]).

Definition onTokenFetchHistoryRequested (state action : JsVal) : M JsVal :=
  tokenId ← get action "tokenId";
  tokensHistory ← get state "tokensHistory";
  let oldState := lodash_get tokensHistory tokenId (obj []) in
  oldStatus ← get oldState "status";
  put_entity state "tokensHistory" tokenId
    (with_fields (own_props oldState)
       [ ("status", JStr (LOADING (TOKEN_DOWNLOAD_STATUS E)));
         ("oldStatus", oldStatus) ]).

Definition onSetUseAtomicSwap (state action : JsVal) : M JsVal :=
  useAtomicSwap ← get action "payload";
  mret (with_fields (own_props state) [("useAtomicSwap", useAtomicSwap)]).

Definition onProposalListUpdated (state action : JsVal) : M JsVal :=
  listenedProposalsMap ← get action "listenedProposalsMap";
  mret (with_fields (own_props state) [("proposals", listenedProposalsMap)]).

Definition onProposalFetchRequested (state action : JsVal) : M JsVal :=
  proposalId ← get action "proposalId";
  proposals ← get state "proposals";
  let oldState := lodash_get proposals proposalId (obj [("id", proposalId)]) in
  oldStatus ← get oldState "status";
  put_entity state "proposals" proposalId
    (with_fields (own_props oldState)
       [ ("status", JStr (LOADING (PROPOSAL_DOWNLOAD_STATUS E)));
         ("oldStatus", oldStatus) ]).

Definition onProposalFetchSuccess (state action : JsVal) : M JsVal :=
  proposalId ← get action "proposalId";
  data ← get action "data";
  proposals ← get state "proposals";
  let oldState := lodash_get proposals proposalId (obj [("id", proposalId)]) in
  put_entity state "proposals" proposalId
    (with_fields (own_props oldState)
       [ ("status", JStr (READY (PROPOSAL_DOWNLOAD_STATUS E)));
         ("updatedAt", JNum now);
         ("data", data) ]).

Definition onProposalFetchFailed (state action : JsVal) : M JsVal :=
  proposalId ← get action "proposalId";
  errorMessage ← get action "errorMessage";
  proposals ← get state "proposals";
  password ← get (lodash_get proposals proposalId (obj [("id", proposalId)]))
               "password";
  put_entity state "proposals" proposalId
    (obj [ ("id", proposalId);
           ("password", password);
           ("status", JStr (FAILED (PROPOSAL_DOWNLOAD_STATUS E)));
           ("errorMessage", errorMessage);
           ("updatedAt", JNum now) ]).

Definition onProposalUpdate (state action : JsVal) : M JsVal :=
  proposalId ← get action "proposalId";
  data ← get action "data";
  proposals ← get state "proposals";
  let oldState := lodash_get proposals proposalId (obj [("id", proposalId)]) in
  put_entity state "proposals" proposalId
    (with_fields (own_props oldState)
       [ ("updatedAt", JNum now); ("data", data) ]).

Definition onProposalTokenFetchRequested (state action : JsVal) : M JsVal :=
  tokenUid ← get action "tokenUid";
  tokensCache ← get state "tokensCache";
  let oldState :=
    lodash_get tokensCache tokenUid
      (obj [ ("tokenUid", tokenUid);
             ("symbol", JStr "");
             ("name", JStr "");
             ("status", JStr (LOADING (TOKEN_DOWNLOAD_STATUS E))) ]) in
  oldStatus ← get oldState "status";
  put_entity state "tokensCache" tokenUid
    (with_fields (own_props oldState)
       [ ("status", JStr (LOADING (TOKEN_DOWNLOAD_STATUS E)));
         ("oldStatus", oldStatus) ]).

Definition onProposalTokenFetchSuccess (state action : JsVal) : M JsVal :=
  tokenUid ← get action "tokenUid";
  data ← get action "data";
  symbol ← get data "symbol";
  name ← get data "name";
  put_entity state "tokensCache" tokenUid
    (obj [ ("tokenUid", tokenUid);
           ("symbol", symbol);
           ("name", name);
           ("status", JStr (READY (TOKEN_DOWNLOAD_STATUS E))) ]).

Definition onProposalTokenFetchFailed (state action : JsVal) : M JsVal :=
  tokenUid ← get action "tokenUid";
  errorMessage ← get action "errorMessage";
  put_entity state "tokensCache" tokenUid
    (obj [ ("id", tokenUid);
           ("symbol", JStr "");
           ("name", JStr "");
           ("status", JStr (FAILED (TOKEN_DOWNLOAD_STATUS E)));
           ("errorMessage", errorMessage) ]).

Definition onProposalImported (state action : JsVal) : M JsVal :=
  proposalId ← get action "proposalId";
  password ← get action "password";
  put_entity state "proposals" proposalId
    (obj [ ("id", proposalId);
           ("password", password);
           ("status", JStr (INVALIDATED (PROPOSAL_DOWNLOAD_STATUS E))) ]).

Definition onProposalRemoved (state action : JsVal) : M JsVal :=
  proposalId ← get action "proposalId";
  proposals ← get state "proposals";
  let newProposals := delete (to_str proposalId) (own_props proposals) in
  mret (with_fields (own_props state) [("proposals", JObj newProposals)]).

Definition onStartWalletLock (state : JsVal) : M JsVal :=
  mret (with_fields (own_props state)
          [("walletStartState", JStr (LOADING (WALLET_STATUS E)))]).

Definition onStartWalletRequested (state action : JsVal) : M JsVal :=
  mret (with_fields (own_props state)
          [ ("walletStartState", JStr (LOADING (WALLET_STATUS E)));
            ("startWalletAction", action) ]).

Definition onStartWalletSuccess (state : JsVal) : M JsVal :=
  mret (with_fields (own_props state)
          [ ("walletStartState", JStr (READY (WALLET_STATUS E)));
            ("startWalletAction", JNull) ]).

Definition onStartWalletFailed (state : JsVal) : M JsVal :=
  mret (with_fields (own_props state)
          [("walletStartState", JStr (FAILED (WALLET_STATUS E)))]).

Definition onTokenInvalidateBalance (state action : JsVal) : M JsVal :=
  tokenId ← get action "tokenId";
  put_entity state "tokensBalance" tokenId
    (obj [("status", JStr (INVALIDATED (TOKEN_DOWNLOAD_STATUS E)))]).

Definition onTokenInvalidateHistory (state action : JsVal) : M JsVal :=
  tokenId ← get action "tokenId";
  put_entity state "tokensHistory" tokenId
    (obj [("status", JStr (INVALIDATED (TOKEN_DOWNLOAD_STATUS E)))]).

Definition onWalletBestBlockUpdate (state action : JsVal) : M JsVal :=
  data ← get action "data";
  mret (with_fields (own_props state) [("height", data)]).

Definition onSetNavigateTo (state action : JsVal) : M JsVal :=
  route ← get action "route";
  replace ← get action "replace";
  mret (with_fields (own_props state)
          [("navigateTo", obj [("route", route); ("replace", replace)])]).

Definition onSetServerInfo (state action : JsVal) : M JsVal :=
  network ← payload_field action "network";
  version ← payload_field action "version";
  mret (with_fields (own_props state)
          [("serverInfo", obj [("network", network); ("version", version)])]).

Definition onFeatureToggleInitialized (state : JsVal) : M JsVal :=
  mret (with_fields (own_props state)
          [("featureTogglesInitialized", JBool true)]).

Definition onSetFeatureToggles (state action : JsVal) : M JsVal :=
  payload ← get action "payload";
  mret (with_fields (own_props state) [("featureToggles", payload)]).

(** The loop of [onUpdateTxHistory]: the first entry of the history with
    the id of [tx] is replaced, and the loop stops there. *)
Definition onUpdateTxHistory_data (tx tokenId balance data : JsVal) : M JsVal :=
  newTokenHistoryData ← spread_iter data;
  match data with
  | JArr es _ =>
      index ← find_index (same_tx tx) es 0%Z;
      if (index <? 0)%Z then mret (JArr newTokenHistoryData ∅)
      else
        txHistory ← getTxHistoryFromWSTx tx tokenId balance;
        mret (arr_set newTokenHistoryData ∅ index txHistory)
  | _ => throw TypeError
  end.

Definition onUpdateTxHistory (state action : JsVal) : M JsVal :=
  payload ← get action "payload";
  tx ← get payload "tx";
  tokenId ← get payload "tokenId";
  balance ← get payload "balance";
  tokensHistory ← get state "tokensHistory";
  tokenHistory ← get tokensHistory (to_str tokenId);
  if negb (truthy tokenHistory) then mret state
  else
    data ← get tokenHistory "data";
    newTokenHistoryData ← onUpdateTxHistory_data tx tokenId balance data;
    let newTokenHistory :=
      with_fields (own_props tokenHistory) [("data", newTokenHistoryData)] in
    put_entity state "tokensHistory" tokenId newTokenHistory.

Definition onWalletStateChanged (state action : JsVal) : M JsVal :=
  payload ← get action "payload";
  mret (with_fields (own_props state) [("walletState", payload)]).

Definition onSetMiningServer (state action : JsVal) : M JsVal :=
  payload ← get action "payload";
  mret (with_fields (own_props state) [("miningServer", payload)]).

Definition is_native (e : JsVal) : M bool :=
  uid ← get e "uid"; mret (seq_eq uid (JStr (NATIVE_TOKEN_UID E))).

Definition onSetNativeTokenData (state action : JsVal) : M JsVal :=
  payload ← get action "payload";
  stateTokens ← get state "tokens";
  copy ← spread_iter stateTokens;
  nativeTokenIndex ← find_index is_native copy 0%Z;
  let native :=
    with_fields (own_props payload) [("uid", JStr (NATIVE_TOKEN_UID E))] in
  let tokens :=
    if (nativeTokenIndex =? -1)%Z then JArr (native :: copy) ∅
    else arr_set copy ∅ nativeTokenIndex native in
  tokensCache ← get state "tokensCache";
  symbol ← get payload "symbol";
  name ← get payload "name";
  mret (with_fields (own_props state)
          [ ("nativeTokenData", payload);
            ("tokens", tokens);
            ("tokensCache",
             with_fields (own_props tokensCache)
               [ (NATIVE_TOKEN_UID E,
                  obj [ ("tokenUid", JStr (NATIVE_TOKEN_UID E));
                        ("symbol", symbol);
                        ("name", name);
                        ("status", JStr (READY (TOKEN_DOWNLOAD_STATUS E))) ]) ]) ]).

(** [onSetUnleashClient] is called by the reducer and declared nowhere:
    reaching the call throws a ReferenceError. *)
Definition onSetUnleashClient (state action : JsVal) : M JsVal :=
  throw ReferenceError.

(** The cases the reducer writes in line: [Object.assign({}, state, {k: v})]. *)
Definition assign_payload_fields (ks : list string) (state action : JsVal)
  : M JsVal :=
  fields ← for_of ks (λ k acc, v ← payload_field action k; mret (acc ++ [(k, v)])) [];
  mret (JObj (assign2 state (obj fields))).

Definition assign_payload_as (k : string) (state action : JsVal) : M JsVal :=
  payload ← get action "payload";
  mret (JObj (assign2 state (obj [(k, payload)]))).

Definition onIsVersionAllowedUpdate (state action : JsVal) : M JsVal :=
  allowed ← payload_field action "allowed";
  mret (JObj (assign2 state (obj [("isVersionAllowed", allowed)]))).

Definition onReloadData (state action : JsVal) : M JsVal :=
  payload ← get action "payload";
  mret (JObj (assign2 state payload)).

(** The [switch] of the reducer, in the order of its cases: the first label
    that is [===] to [action.type] decides. *)
Definition cases : list (string * (JsVal → JsVal → M JsVal)) :=
  [ ("history_update",
     assign_payload_fields
       [ "allTokens"; "lastSharedIndex"; "lastSharedAddress";
         "addressesFound"; "transactionsFound" ]);
    ("shared_address",
     assign_payload_fields ["lastSharedAddress"; "lastSharedIndex"]);
    ("is_version_allowed_update", onIsVersionAllowedUpdate);
    ("is_online_update", assign_payload_fields ["isOnline"]);
    ("network_update", assign_payload_fields ["network"]);
    ("reload_data", onReloadData);
    ("clean_data", λ state _, onCleanData state);
    ("last_failed_request", assign_payload_as "lastFailedRequest");
    ("select_token", assign_payload_as "selectedToken");
    ("new_tokens", onNewTokens);
    ("loading_addresses_update", assign_payload_as "loadingAddresses");
    ("update_loaded_data", onUpdateLoadedData);
    ("update_request_error_status_code",
     assign_payload_as "requestErrorStatusCode");
    ("update_height", onUpdateHeight);
    ("load_wallet_success", onLoadWalletSuccess);
    ("update_tx", onUpdateTx);
    ("update_token_history", onUpdateTokenHistory);
    ("token_metadata_updated", tokenMetadataUpdated);
    ("metadata_loaded", assign_payload_as "metadataLoaded");
    ("remove_token_metadata", removeTokenMetadata);
    ("partially_update_history_and_balance", partiallyUpdateHistoryAndBalance);
    ("set_use_wallet_service", onSetUseWalletService);
    ("lock_wallet_for_result", onLockWalletForResult);
    ("resolve_lock_wallet_promise", onResolveLockWalletPromise);
    ("reset_selected_token_if_needed", resetSelectedTokenIfNeeded);
    ("set_ledger_was_closed", assign_payload_as "ledgerWasClosed");
    (SET_SERVER_INFO (types E), onSetServerInfo);
    (TOKEN_FETCH_BALANCE_REQUESTED (types E), onTokenFetchBalanceRequested);
    (TOKEN_FETCH_BALANCE_SUCCESS (types E), onTokenFetchBalanceSuccess);
    (TOKEN_FETCH_BALANCE_FAILED (types E), onTokenFetchBalanceFailed);
    (TOKEN_FETCH_HISTORY_REQUESTED (types E), onTokenFetchHistoryRequested);
    (TOKEN_FETCH_HISTORY_SUCCESS (types E), onTokenFetchHistorySuccess);
    (TOKEN_FETCH_HISTORY_FAILED (types E), onTokenFetchHistoryFailed);
    (SET_ENABLE_ATOMIC_SWAP (types E), onSetUseAtomicSwap);
    (PROPOSAL_LIST_UPDATED (types E), onProposalListUpdated);
    (PROPOSAL_FETCH_REQUESTED (types E), onProposalFetchRequested);
    (PROPOSAL_FETCH_SUCCESS (types E), onProposalFetchSuccess);
    (PROPOSAL_FETCH_FAILED (types E), onProposalFetchFailed);
    (PROPOSAL_UPDATED (types E), onProposalUpdate);
    (PROPOSAL_TOKEN_FETCH_REQUESTED (types E), onProposalTokenFetchRequested);
    (PROPOSAL_TOKEN_FETCH_SUCCESS (types E), onProposalTokenFetchSuccess);
    (PROPOSAL_TOKEN_FETCH_FAILED (types E), onProposalTokenFetchFailed);
    (PROPOSAL_REMOVED (types E), onProposalRemoved);
    (PROPOSAL_IMPORTED (types E), onProposalImported);
    (TOKEN_INVALIDATE_HISTORY (types E), onTokenInvalidateHistory);
    (TOKEN_INVALIDATE_BALANCE (types E), onTokenInvalidateBalance);
    (ON_START_WALLET_LOCK (types E), λ state _, onStartWalletLock state);
    (START_WALLET_REQUESTED (types E), onStartWalletRequested);
    (START_WALLET_SUCCESS (types E), λ state _, onStartWalletSuccess state);
    (START_WALLET_FAILED (types E), λ state _, onStartWalletFailed state);
    (WALLET_BEST_BLOCK_UPDATE (types E), onWalletBestBlockUpdate);
    (SET_NAVIGATE_TO (types E), onSetNavigateTo);
    (SET_UNLEASH_CLIENT (types E), onSetUnleashClient);
    (SET_FEATURE_TOGGLES (types E), onSetFeatureToggles);
    (FEATURE_TOGGLE_INITIALIZED (types E), λ state _, onFeatureToggleInitialized state);
    (UPDATE_TX_HISTORY (types E), onUpdateTxHistory);
    (WALLET_CHANGE_STATE (types E), onWalletStateChanged);
    (SET_MINING_SERVER (types E), onSetMiningServer);
    (SET_NATIVE_TOKEN_DATA (types E), onSetNativeTokenData) ].

Definition is_case (type : JsVal) (c : string * (JsVal → JsVal → M JsVal)) : bool :=
  seq_eq type (JStr c.1).

(** [rootReducer(state = initialState, action)]. *)
Definition rootReducer (state action : JsVal) : M JsVal :=
  let state := match state with JUndefined => initialState | _ => state end in
  type ← get action "type";
  match find (is_case type) cases with
  | Some c => c.2 state action
  | None => mret state
  end.

End Reducer.

(** ** An instance of the imports

    The examples below run the reducer with these: the action type names
    as the interface table of the specification writes them (the name of
    the constant where the table has none), the native token uid of the
    wallet library, and no transaction taken for an authority-only one. *)

Definition demo_types : ActionTypes := {|
  SET_SERVER_INFO := "SET_SERVER_INFO";
  TOKEN_FETCH_BALANCE_REQUESTED := "token_fetch_balance_requested";
  TOKEN_FETCH_BALANCE_SUCCESS := "token_fetch_balance_success";
  TOKEN_FETCH_BALANCE_FAILED := "token_fetch_balance_failed";
  TOKEN_FETCH_HISTORY_REQUESTED := "token_fetch_history_requested";
  TOKEN_FETCH_HISTORY_SUCCESS := "token_fetch_history_success";
  TOKEN_FETCH_HISTORY_FAILED := "token_fetch_history_failed";
  SET_ENABLE_ATOMIC_SWAP := "SET_ENABLE_ATOMIC_SWAP";
  PROPOSAL_LIST_UPDATED := "proposal_list_updated";
  PROPOSAL_FETCH_REQUESTED := "proposal_fetch_requested";
  PROPOSAL_FETCH_SUCCESS := "proposal_fetch_success";
  PROPOSAL_FETCH_FAILED := "proposal_fetch_failed";
  PROPOSAL_UPDATED := "proposal_updated";
  PROPOSAL_TOKEN_FETCH_REQUESTED := "proposal_token_fetch_requested";
  PROPOSAL_TOKEN_FETCH_SUCCESS := "proposal_token_fetch_success";
  PROPOSAL_TOKEN_FETCH_FAILED := "proposal_token_fetch_failed";
  PROPOSAL_REMOVED := "proposal_removed";
  PROPOSAL_IMPORTED := "proposal_imported";
  TOKEN_INVALIDATE_HISTORY := "token_invalidate_history";
  TOKEN_INVALIDATE_BALANCE := "token_invalidate_balance";
  ON_START_WALLET_LOCK := "ON_START_WALLET_LOCK";
  START_WALLET_REQUESTED := "start_wallet_requested";
  START_WALLET_SUCCESS := "start_wallet_success";
  START_WALLET_FAILED := "start_wallet_failed";
  WALLET_BEST_BLOCK_UPDATE := "WALLET_BEST_BLOCK_UPDATE";
  SET_NAVIGATE_TO := "SET_NAVIGATE_TO";
  SET_UNLEASH_CLIENT := "SET_UNLEASH_CLIENT";
  SET_FEATURE_TOGGLES := "SET_FEATURE_TOGGLES";
  FEATURE_TOGGLE_INITIALIZED := "FEATURE_TOGGLE_INITIALIZED";
  UPDATE_TX_HISTORY := "UPDATE_TX_HISTORY";
  WALLET_CHANGE_STATE := "WALLET_CHANGE_STATE";
  SET_MINING_SERVER := "SET_MINING_SERVER";
  SET_NATIVE_TOKEN_DATA := "set_native_token_data"
|}.

Definition demo_status : StatusNames := {|
  LOADING := "loading";
  READY := "ready";
  FAILED := "failed";
  INVALIDATED := "invalidated"
|}.

Definition demo : Env := {|
  NATIVE_TOKEN_UID := "00";
  VERSION := JStr "0.27.1";
  FEATURE_TOGGLE_DEFAULTS := obj [];
  types := demo_types;
  TOKEN_DOWNLOAD_STATUS := demo_status;
  WALLET_STATUS := demo_status;
  PROPOSAL_DOWNLOAD_STATUS := demo_status;
  isAllAuthority := λ _, mret (JBool false);
  same_ref := λ _ _, false
|}.

(** An action: [{type, payload}]. *)
Definition action_of (type : string) (payload : JsVal) : JsVal :=
  obj [("type", JStr type); ("payload", payload)].

(** [state.k1.k2...], reading [undefined] where the path breaks off. *)
Definition at_path (v : JsVal) (ks : list string) : JsVal := foldl field v ks.

(** The fields that [clean_data] carries over. *)
Definition kept_on_reset : list string :=
  [ "isVersionAllowed"; "loadingAddresses"; "ledgerWasClosed";
    "featureTogglesInitialized" ].

(** Run [m] and read [state.k1.k2...] in the state it returns. *)
Definition then_read (m : M JsVal) (ks : list string) : M JsVal :=
  s' ← m; mret (at_path s' ks).

(** A transaction as the event feed sends it, and the history entry
    [getTxHistoryFromWSTx] makes of it for the token 0a. *)
Definition ws_tx (tx_id : string) (is_voided : bool) : JsVal :=
  obj [ ("tx_id", JStr tx_id); ("timestamp", JNum 100);
        ("is_voided", JBool is_voided); ("version", JNum 1) ].

Definition history_entry (tx_id : string) (balance : Z) (is_voided : bool)
  : JsVal :=
  obj [ ("tx_id", JStr tx_id); ("timestamp", JNum 100);
        ("tokenUid", JStr "0a"); ("balance", JNum balance);
        ("is_voided", JBool is_voided); ("version", JNum 1);
        ("isAllAuthority", JBool false) ].

(** [update_tx] for the token 0a. *)
Definition update_tx (tx : JsVal) (balance : Z) : JsVal :=
  action_of "update_tx"
    (obj [ ("tx", tx);
           ("updatedBalanceMap", obj []);
           ("balances", obj [("0a", JNum balance)]) ]).

(** The initial state with [k] set to [v]. *)
Definition initial_with (k : string) (v : JsVal) : JsVal :=
  with_fields (own_props (initialState demo)) [(k, v)].

(** A token history as the reducer's typedef has it. *)
Definition history_record (data : list JsVal) : JsVal :=
  obj [ ("status", JStr "ready"); ("oldStatus", JStr "loading");
        ("updatedAt", JNum 5); ("data", JArr data ∅) ].

(** [step] keeps [oldStatus] for the collection [coll]: whenever it is
    applied for the entity that the field [idField] of the action names,
    the record it leaves for that entity has as [oldStatus] the [status]
    the entity had before, [undefined] for an entity that was not there.
    The name of the entity is a plain key, with none of the characters
    that lodash reads as path syntax, and the collection does not hold
    [null] under it. *)
Definition keeps_old_status (coll idField : string)
    (step : JsVal → JsVal → M JsVal) : Prop :=
  ∀ (s : gmap string JsVal) (action : JsVal) (id : string),
    path_syntax id = false →
    own action idField = Some (JStr id) →
    at_path (JObj s) [coll; id] ≠ JNull →
    ∃ s' : JsVal,
      step (JObj s) action = mret s' ∧
      at_path s' [coll; id; "oldStatus"] = at_path (JObj s) [coll; id; "status"].

(** ** Registered tokens: [src/utils/tokens.js]

    [getRegisteredTokens] drains the iterator of the wallet's storage,
    which is given here by the sequence of the tokens it yields. *)

(** One turn of the loop of [getRegisteredTokens]. *)
Definition getRegisteredTokens_step (E : Env) (excludeDefaultToken token : JsVal)
    (tokens : list JsVal) : M (list JsVal) :=
  keep ← (if negb (truthy excludeDefaultToken) then mret true
          else uid ← get token "uid";
               mret (negb (seq_eq E uid (JStr (NATIVE_TOKEN_UID E)))));
  if keep : bool then
    uid ← get token "uid";
    name ← get token "name";
    symbol ← get token "symbol";
    mret (tokens ++ [obj [("uid", uid); ("name", name); ("symbol", symbol)]])
  else mret tokens.

(** [getRegisteredTokens(wallet, excludeDefaultToken = false)]. *)
Definition getRegisteredTokens (E : Env) (yielded : list JsVal)
    (excludeDefaultToken : JsVal) : M (list JsVal) :=
  let excludeDefaultToken :=
    match excludeDefaultToken with
    | JUndefined => JBool false
    | _ => excludeDefaultToken
    end in
  for_of yielded (getRegisteredTokens_step E excludeDefaultToken) [].

(** The [{uid, name, symbol}] that [getRegisteredTokens] keeps of a token. *)
Definition token_data (token : JsVal) : JsVal :=
  obj [ ("uid", field token "uid"); ("name", field token "name");
        ("symbol", field token "symbol") ].

(** The token signatures of the hardware wallet. [LOCAL_STORE] is not among
    the sources at hand: it is a store of some type, read by
    [getTokenSignatures], which answers a map from token uid to signature,
    and written by [setTokenSignatures]. *)
Section TokenSignatures.
Variable Store : Type.
Variable getTokenSignatures : Store → gmap string JsVal.
Variable setTokenSignatures : gmap string JsVal → Store → Store.

(** [hasOwnProperty] is asked before the read: an unknown uid gives [null]. *)
Definition getTokenSignature (uid : string) (store : Store) : JsVal :=
  let tokenSignatures := getTokenSignatures store in
  if negb (bool_decide (is_Some (tokenSignatures !! uid))) then JNull
  else field (JObj tokenSignatures) uid.

Definition addTokenSignature (uid : string) (signature : JsVal) (store : Store)
  : Store :=
  let tokenSignatures := getTokenSignatures store in
  setTokenSignatures (<[uid := signature]> tokenSignatures) store.

Definition removeTokenSignature (uid : string) (store : Store) : Store :=
  let tokenSignatures := getTokenSignatures store in
  setTokenSignatures (delete uid tokenSignatures) store.
End TokenSignatures.

(** The labels of the reducer's [switch] that stand before
    [SET_UNLEASH_CLIENT]. *)
Definition labels_before_unleash (E : Env) (now : Z) : list string :=
  (take 52 (cases E now)).*1.

(** The transitions on which the reducer calls out of the store. *)
Definition calling_out : list string :=
  ["load_wallet_success"; "resolve_lock_wallet_promise"].

(** What [get(collection, id, dflt)] answers for a plain key: the entity,
    or [dflt] where there is none. *)
Definition or_default (entity dflt : JsVal) : JsVal :=
  match entity with JUndefined => dflt | r => r end.

(** The state after [{...state, [coll]: {...state[coll], [id]: f(entity)}}],
    where [entity] is what [state[coll][id]] held. *)
Definition entity_update (coll id : string) (f : JsVal → JsVal)
    (s : gmap string JsVal) : JsVal :=
  JObj (<[coll := JObj (<[id := f (at_path (JObj s) [coll; id])]>
                          (own_props (field (JObj s) coll)))]> s).

(** An entity of a collection: a record, or nothing yet. *)
Definition absent_or_record (entity : JsVal) : bool :=
  match entity with JUndefined | JObj _ => true | _ => false end.

(** [step] keeps the field [k] of the entity that [idField] names. *)
Definition keeps_entity_field (coll idField k : string)
    (step : JsVal → JsVal → M JsVal) : Prop :=
  ∀ (s : gmap string JsVal) (action : JsVal) (id : string),
    path_syntax id = false →
    own action idField = Some (JStr id) →
    absent_or_record (at_path (JObj s) [coll; id]) = true →
    ∃ s' : JsVal,
      step (JObj s) action = mret s' ∧
      at_path s' [coll; id; k] = at_path (JObj s) [coll; id; k].

(** The status transitions of the reducer: the collection each one works
    on, the field of the action that names the entity, whether the handler
    reads into [action.data], and the handler. *)
Definition status_steps (E : Env) (now : Z)
  : list (string * string * bool * (JsVal → JsVal → M JsVal)) :=
  [ ("tokensBalance", "tokenId", false, onTokenFetchBalanceRequested E);
    ("tokensBalance", "tokenId", false, onTokenFetchBalanceSuccess E now);
    ("tokensBalance", "tokenId", false, onTokenFetchBalanceFailed E);
    ("tokensBalance", "tokenId", false, onTokenInvalidateBalance E);
    ("tokensHistory", "tokenId", false, onTokenFetchHistoryRequested E);
    ("tokensHistory", "tokenId", false, onTokenFetchHistorySuccess E now);
    ("tokensHistory", "tokenId", false, onTokenFetchHistoryFailed E);
    ("tokensHistory", "tokenId", false, onTokenInvalidateHistory E);
    ("proposals", "proposalId", false, onProposalFetchRequested E);
    ("proposals", "proposalId", false, onProposalFetchSuccess E now);
    ("proposals", "proposalId", false, onProposalFetchFailed E now);
    ("proposals", "proposalId", false, onProposalUpdate now);
    ("proposals", "proposalId", false, onProposalImported E);
    ("tokensCache", "tokenUid", false, onProposalTokenFetchRequested E);
    ("tokensCache", "tokenUid", true, onProposalTokenFetchSuccess E);
    ("tokensCache", "tokenUid", false, onProposalTokenFetchFailed E) ].

(** An action that a status transition can take: it names an entity by a
    plain key, and has a [data] to read into where the handler does so. *)
Definition names_entity (action : JsVal) (idField : string) (reads_data : bool)
    (id : string) : Prop :=
  path_syntax id = false ∧
  own action idField = Some (JStr id) ∧
  (reads_data = true → nullish (field action "data") = false).

(** The index that the scan of a history for the transaction [tx] answers:
    that of the first entry with the [tx_id] of [tx], if there is one. *)
Fixpoint tx_index (E : Env) (tx : JsVal) (history : list JsVal) : option nat :=
  match history with
  | [] => None
  | el :: rest =>
      if seq_eq E (field el "tx_id") (field tx "tx_id") then Some 0%nat
      else S <$> tx_index E tx rest
  end.

(** The entry that [getTxHistoryFromWSTx] makes of [tx], where
    [isAllAuthority] answers [allAuthority]. *)
Definition tx_history (tx tokenUid balance allAuthority : JsVal) : JsVal :=
  obj [ ("tx_id", field tx "tx_id");
        ("timestamp", field tx "timestamp");
        ("tokenUid", tokenUid);
        ("balance", balance);
        ("is_voided", field tx "is_voided");
        ("version", field tx "version");
        ("isAllAuthority", allAuthority) ].

(** The index that the scan of [state.tokens] for the native token answers:
    that of the first token whose [uid] is the native one, if there is
    one. *)
Fixpoint native_index (E : Env) (tokens : list JsVal) : option nat :=
  match tokens with
  | [] => None
  | e :: rest =>
      if seq_eq E (field e "uid") (JStr (NATIVE_TOKEN_UID E)) then Some 0%nat
      else S <$> native_index E rest
  end.

(** The history that an entry of [tokensHistory] holds in [data], as
    [get(tokensHistory, token + '.data', [])] reads it: nothing yet is the
    empty history. *)
Definition history_data (entry : JsVal) : option (list JsVal) :=
  match field entry "data" with
  | JUndefined => Some []
  | JArr es _ => Some es
  | _ => None
  end.

(** The test of the loop of [getRegisteredTokens]. *)
Definition registered_kept (E : Env) (excludeDefaultToken token : JsVal) : bool :=
  negb (truthy excludeDefaultToken)
  || negb (seq_eq E (field token "uid") (JStr (NATIVE_TOKEN_UID E))).

(** The entry that [onSetNativeTokenData] makes of its payload:
    [{...payload, uid: NATIVE_TOKEN_UID}]. *)
Definition native_token (E : Env) (payload : JsVal) : JsVal :=
  with_fields (own_props payload) [("uid", JStr (NATIVE_TOKEN_UID E))].

(** [tokens] with the native token set: in the place of the first token
    with the native uid, or at the head where there is none. *)
Definition with_native_token (E : Env) (payload : JsVal) (tokens : list JsVal)
  : list JsVal :=
  match native_index E tokens with
  | Some n => <[n := native_token E payload]> tokens
  | None => native_token E payload :: tokens
  end.

(** ** Properties *)

(** *** The monad and the reading of properties *)

Lemma bind_ret_l {A B} (a : A) (f : A → M B) : (mret a ≫= f) = f a.
Proof. unfold mbind, M_bind, bind. simpl. by destruct (f a). Qed.

Lemma bind_throw {A B} (e : Exn) (f : A → M B) : (throw e ≫= f) = throw e.
Proof. reflexivity. Qed.

Lemma bind_ret_r {A} (m : M A) : (m ≫= mret) = m.
Proof.
  destruct m as [l [e|a]]; unfold mbind, M_bind, bind; simpl; [done|].
  by rewrite app_nil_r.
Qed.

Lemma get_obj (p : gmap string JsVal) (k : string) :
  get (JObj p) k = mret (field (JObj p) k).
Proof. reflexivity. Qed.

Lemma get_ok (v : JsVal) (k : string) :
  nullish v = false → get v k = mret (field v k).
Proof. unfold get. by intros ->. Qed.

Lemma field_obj (p : gmap string JsVal) (k : string) :
  field (JObj p) k = default JUndefined (p !! k).
Proof. reflexivity. Qed.

Lemma seq_eq_str (E : Env) (v : JsVal) (l : string) :
  v ≠ JStr l → seq_eq E v (JStr l) = false.
Proof.
  intros Hne. destruct v; try reflexivity. simpl.
  apply String.eqb_neq. congruence.
Qed.

(** *** Dispatch *)

Lemma find_no_case (E : Env) (type : JsVal)
    (cs : list (string * (JsVal → JsVal → M JsVal))) :
  (∀ c, c ∈ cs → type ≠ JStr c.1) → find (is_case E type) cs = None.
Proof.
  induction cs as [|c cs IH]; intros Hall; [done|].
  simpl. unfold is_case at 1. rewrite seq_eq_str.
  - apply IH. intros c' Hc'. apply Hall. by right.
  - apply Hall. by left.
Qed.

(** C2. A transition whose identifier is none of the labels of the
    reducer's [switch] is a no-op: for every state the reducer is given, it
    returns that very state, calls nothing and throws nothing. *)
Theorem unknown_transition_is_noop (E : Env) (now : Z)
    (state action type : JsVal) :
  state ≠ JUndefined →
  get action "type" = mret type →
  (∀ c, c ∈ cases E now → type ≠ JStr c.1) →
  rootReducer E now state action = mret state.
Proof.
  intros Hstate Htype Hnone. unfold rootReducer.
  rewrite Htype, bind_ret_l, (find_no_case E type _ Hnone).
  by destruct state.
Qed.

Lemma unknown_transition_is_noop_witness :
  rootReducer demo 0 (initialState demo) (action_of "wallet_renamed" JNull)
  = mret (initialState demo).
Proof.
  apply (unknown_transition_is_noop demo 0 _ _ (JStr "wallet_renamed")).
  - discriminate.
  - reflexivity.
  - intros c Hc. apply list_elem_of_In in Hc. simpl in Hc.
    repeat (destruct Hc as [<-|Hc]; [discriminate|]). destruct Hc.
Defined.

Lemma get_not_nullish (v : JsVal) (k : string) (x : JsVal) :
  get v k = mret x → nullish v = false.
Proof. unfold get. by destruct (nullish v). Qed.

Lemma get_some (v : JsVal) (k : string) (x : JsVal) :
  get v k = mret x → get v k = mret (field v k).
Proof. intros H. by rewrite (get_ok v k (get_not_nullish v k x H)). Qed.

(** Each of the labels written as a literal leads to its handler. *)
Ltac dispatch Hstate Htype :=
  unfold rootReducer; rewrite Htype, bind_ret_l;
  match goal with |- context [match ?st with JUndefined => _ | _ => _ end] =>
    destruct st; [congruence|reflexivity..]
  end.

Lemma reduce_clean_data (E : Env) (now : Z) (state action : JsVal) :
  state ≠ JUndefined →
  get action "type" = mret (JStr "clean_data") →
  rootReducer E now state action = onCleanData E state.
Proof. intros Hs Ht. dispatch Hs Ht. Qed.

Lemma reduce_update_height (E : Env) (now : Z) (state action : JsVal) :
  state ≠ JUndefined →
  get action "type" = mret (JStr "update_height") →
  rootReducer E now state action = onUpdateHeight E state action.
Proof. intros Hs Ht. dispatch Hs Ht. Qed.

Lemma reduce_update_tx (E : Env) (now : Z) (state action : JsVal) :
  state ≠ JUndefined →
  get action "type" = mret (JStr "update_tx") →
  rootReducer E now state action = onUpdateTx E state action.
Proof. intros Hs Ht. dispatch Hs Ht. Qed.

Lemma reduce_remove_token_metadata (E : Env) (now : Z) (state action : JsVal) :
  state ≠ JUndefined →
  get action "type" = mret (JStr "remove_token_metadata") →
  rootReducer E now state action = removeTokenMetadata E state action.
Proof. intros Hs Ht. dispatch Hs Ht. Qed.

Lemma reduce_resolve_lock_wallet_promise (E : Env) (now : Z)
    (state action : JsVal) :
  state ≠ JUndefined →
  get action "type" = mret (JStr "resolve_lock_wallet_promise") →
  rootReducer E now state action = onResolveLockWalletPromise state action.
Proof. intros Hs Ht. dispatch Hs Ht. Qed.

Lemma reduce_reset_selected_token_if_needed (E : Env) (now : Z)
    (state action : JsVal) :
  state ≠ JUndefined →
  get action "type" = mret (JStr "reset_selected_token_if_needed") →
  rootReducer E now state action = resetSelectedTokenIfNeeded E state action.
Proof. intros Hs Ht. dispatch Hs Ht. Qed.

(** *** Session reset *)

(** C4. [clean_data] answers the initial state with four fields taken from
    the current state: isVersionAllowed, loadingAddresses, ledgerWasClosed
    and featureTogglesInitialized hold what the current state holds (for a
    field the state lacks, [undefined]), and every other field is as the
    initial state has it, absent where the initial state has none. *)
Theorem clean_data_keeps_four_fields (E : Env) (now : Z)
    (s : gmap string JsVal) (action : JsVal) :
  get action "type" = mret (JStr "clean_data") →
  ∃ r : gmap string JsVal,
    rootReducer E now (JObj s) action = mret (JObj r) ∧
    ∀ k : string,
      r !! k = if decide (k ∈ kept_on_reset)
               then Some (field (JObj s) k)
               else own (initialState E) k.
Proof.
  intros Htype. rewrite reduce_clean_data by done.
  unfold onCleanData. rewrite !get_obj, !bind_ret_l.
  eexists. split; [reflexivity|]. intros k.
  unfold assign2, kept_on_reset. rewrite lookup_union.
  change (own_props (initialState E) !! k) with (own (initialState E) k).
  unfold obj at 1, with_fields at 1. 
  cbn [foldl fst snd own_props].
  generalize (own (initialState E) k) as ini. intros ini.
  case_decide as Hk.
  - set_unfold. destruct Hk as [->|[->|[->|[->|[]]]]].
    all: rewrite ?lookup_insert_eq, ?lookup_insert_ne by done.
    all: by destruct ini.
  - set_unfold.
    rewrite !lookup_insert_ne, lookup_empty by naive_solver.
    by destruct ini.
Qed.

Lemma clean_data_keeps_four_fields_witness :
  ∃ r : gmap string JsVal,
    rootReducer demo 0
      (with_fields (own_props (initialState demo))
         [ ("isVersionAllowed", JBool true); ("loadingAddresses", JBool true);
           ("ledgerWasClosed", JBool true);
           ("featureTogglesInitialized", JBool true);
           ("height", JNum 42); ("selectedToken", JStr "0a") ])
      (action_of "clean_data" JUndefined) = mret (JObj r) ∧
    r !! "ledgerWasClosed" = Some (JBool true) ∧
    r !! "height" = Some (JNum 0) ∧
    r !! "selectedToken" = Some (JStr "00").
Proof.
  destruct (clean_data_keeps_four_fields demo 0
              (foldl (λ m kv, <[kv.1 := kv.2]> m) (own_props (initialState demo))
                 [ ("isVersionAllowed", JBool true);
                   ("loadingAddresses", JBool true);
                   ("ledgerWasClosed", JBool true);
                   ("featureTogglesInitialized", JBool true);
                   ("height", JNum 42); ("selectedToken", JStr "0a") ])
              (action_of "clean_data" JUndefined) eq_refl) as (r & Hr & Hk).
  exists r. split; [exact Hr|].
  split; [|split].
  - by rewrite (Hk "ledgerWasClosed").
  - by rewrite (Hk "height").
  - by rewrite (Hk "selectedToken").
Defined.

(** *** Height *)

Lemma payload_field_ok (action : JsVal) (k : string) :
  nullish action = false →
  nullish (field action "payload") = false →
  payload_field action k = mret (at_path action ["payload"; k]).
Proof.
  intros Ha Hp. unfold payload_field.
  by rewrite (get_ok action), bind_ret_l, (get_ok _ k Hp).
Qed.

Lemma assign2_single (v : JsVal) (k : string) (x : JsVal) :
  assign2 v (obj [(k, x)]) = <[k := x]> (own_props v).
Proof.
  unfold assign2, obj, with_fields. simpl.
  by rewrite insert_empty, <-insert_union_singleton_l.
Qed.

(** What [onUpdateHeight] does to a state, in one equation. *)
Lemma onUpdateHeight_eq (E : Env) (s : gmap string JsVal) (action : JsVal) :
  nullish action = false →
  nullish (field action "payload") = false →
  onUpdateHeight E (JObj s) action =
    if seq_eq E (at_path action ["payload"; "height"]) (field (JObj s) "height")
    then mret (JObj s)
    else mret (JObj (<["height" := at_path action ["payload"; "height"]]>
                      (<["tokensBalance" :=
                           JObj (<[NATIVE_TOKEN_UID E :=
                                     at_path action ["payload"; "htrUpdatedBalance"]]>
                                   (own_props (field (JObj s) "tokensBalance")))]> s))).
Proof.
  intros Ha Hp. unfold onUpdateHeight.
  rewrite !(payload_field_ok action _ Ha Hp), !get_obj, !bind_ret_l.
  destruct (seq_eq E _ _); simpl negb; cbv iota; [done|].
  by rewrite assign2_single.
Qed.

(** C6. [update_height] with the height the state already has returns the
    state as it is; with another height it returns the state with [height]
    set to the incoming height and the native token's entry of
    [tokensBalance] set to the incoming balance, every other field and
    every other balance as before; and applying the same transition a
    second time changes nothing more. *)
Theorem update_height_conditional (E : Env) (now : Z)
    (s : gmap string JsVal) (action : JsVal) :
  get action "type" = mret (JStr "update_height") →
  nullish (field action "payload") = false →
  let height := at_path action ["payload"; "height"] in
  let balance := at_path action ["payload"; "htrUpdatedBalance"] in
  let step := λ state, rootReducer E now state action in
  let updated :=
    JObj (<["height" := height]>
            (<["tokensBalance" :=
                 JObj (<[NATIVE_TOKEN_UID E := balance]>
                         (own_props (field (JObj s) "tokensBalance")))]> s)) in
  (seq_eq E height (field (JObj s) "height") = true →
   step (JObj s) = mret (JObj s)) ∧
  (seq_eq E height (field (JObj s) "height") = false →
   step (JObj s) = mret updated) ∧
  (step (JObj s) ≫= step) = step (JObj s).
Proof.
  intros Htype Hp height balance step updated.
  pose proof (get_not_nullish _ _ _ Htype) as Ha.
  assert (Hstep : ∀ s', step (JObj s') = onUpdateHeight E (JObj s') action).
  { intros s'. unfold step. by rewrite reduce_update_height. }
  rewrite !Hstep, (onUpdateHeight_eq E s action Ha Hp).
  fold height balance.
  split; [by intros ->|]. split; [by intros ->|].
  destruct (seq_eq E height (field (JObj s) "height")) eqn:Hcmp;
    rewrite bind_ret_l, Hstep, (onUpdateHeight_eq E _ action Ha Hp);
    fold height balance.
  - by rewrite Hcmp.
  - match goal with |- (if ?c then _ else _) = _ => destruct c end; [done|].
    do 2 f_equal. rewrite !field_obj.
    rewrite (lookup_insert_ne _ "height" "tokensBalance") by done.
    rewrite lookup_insert_eq. simpl.
    rewrite insert_insert_eq.
    apply map_eq. intros k.
    destruct (decide (k = "height")) as [->|?];
      [by rewrite !lookup_insert_eq|].
    rewrite !(lookup_insert_ne _ "height" k) by done.
    destruct (decide (k = "tokensBalance")) as [->|?];
      [by rewrite !lookup_insert_eq|].
    by rewrite !lookup_insert_ne by done.
Qed.

Lemma update_height_conditional_witness :
  let action := action_of "update_height"
                  (obj [("height", JNum 7); ("htrUpdatedBalance", JNum 100)]) in
  let step := λ state, rootReducer demo 0 state action in
  step (initialState demo)
    = mret (JObj (<["height" := JNum 7]>
                    (<["tokensBalance" := obj [("00", JNum 100)]]>
                       (own_props (initialState demo))))) ∧
  (step (initialState demo) ≫= step) = step (initialState demo).
Proof.
  intros action step.
  pose proof (update_height_conditional demo 0 (own_props (initialState demo))
                action eq_refl eq_refl) as (_ & Hdiffers & Htwice).
  split; [exact (Hdiffers eq_refl)|exact Htwice].
Defined.

(** *** Selected token *)

Lemma own_not_nullish (v : JsVal) (k : string) (x : JsVal) :
  own v k = Some x → nullish v = false.
Proof. by destruct v. Qed.

Lemma field_own (v : JsVal) (k : string) (x : JsVal) :
  own v k = Some x → field v k = x.
Proof. unfold field. by intros ->. Qed.

Lemma has_available_truthy (v x : JsVal) :
  own v "available" = Some x → truthy v = true.
Proof. by destruct v. Qed.

(** C8. When the reselect rule runs on a state whose [selectedToken] is X:
    if [tokensBalance[X]] is [{available: 0, locked: 0}], the result is the
    state with [selectedToken] set to the native token uid; if
    [tokensBalance[X]] holds numbers [available] and [locked] whose sum is
    not zero, the result is the state itself. *)
Theorem reselect_on_zero_balance (E : Env) (now : Z)
    (s : gmap string JsVal) (action tokensBalance X : JsVal) :
  get action "type" = mret (JStr "reset_selected_token_if_needed") →
  s !! "selectedToken" = Some X →
  s !! "tokensBalance" = Some tokensBalance →
  (own tokensBalance (to_str X)
     = Some (obj [("available", JNum 0); ("locked", JNum 0)]) →
   rootReducer E now (JObj s) action
     = mret (JObj (<["selectedToken" := JStr (NATIVE_TOKEN_UID E)]> s))) ∧
  (∀ (entry : JsVal) (available locked : Z),
     own tokensBalance (to_str X) = Some entry →
     own entry "available" = Some (JNum available) →
     own entry "locked" = Some (JNum locked) →
     (available + locked ≠ 0)%Z →
     rootReducer E now (JObj s) action = mret (JObj s)).
Proof.
  intros Htype Hsel Hbal.
  rewrite reduce_reset_selected_token_if_needed by done.
  unfold resetSelectedTokenIfNeeded.
  rewrite !get_obj, !bind_ret_l, !field_obj, Hsel, Hbal. simpl default.
  split.
  - intros Hentry.
    rewrite (get_ok _ _ (own_not_nullish _ _ _ Hentry)), bind_ret_l.
    by rewrite (field_own _ _ _ Hentry).
  - intros entry available locked Hentry Ha Hl Hsum.
    rewrite (get_ok _ _ (own_not_nullish _ _ _ Hentry)), bind_ret_l.
    rewrite (field_own _ _ _ Hentry), (has_available_truthy _ _ Ha).
    rewrite !(get_ok entry) by exact (own_not_nullish _ _ _ Ha).
    rewrite !bind_ret_l, (field_own _ _ _ Ha), (field_own _ _ _ Hl).
    simpl. by rewrite (proj2 (Z.eqb_neq _ _) Hsum).
Qed.

Lemma reselect_on_zero_balance_witness :
  let empty := obj [("available", JNum 0); ("locked", JNum 0)] in
  let funded := obj [("available", JNum 3); ("locked", JNum 1)] in
  let state (entry : JsVal) : gmap string JsVal :=
    <["tokensBalance" := obj [("0a", entry)]]>
      (<["selectedToken" := JStr "0a"]> (own_props (initialState demo))) in
  let action := action_of "reset_selected_token_if_needed" JUndefined in
  rootReducer demo 0 (JObj (state empty)) action
    = mret (JObj (<["selectedToken" := JStr "00"]> (state empty))) ∧
  rootReducer demo 0 (JObj (state funded)) action = mret (JObj (state funded)).
Proof.
  intros empty funded state action. split.
  - exact (proj1 (reselect_on_zero_balance demo 0 (state empty) action
                    (obj [("0a", empty)]) (JStr "0a") eq_refl eq_refl eq_refl)
             eq_refl).
  - refine (proj2 (reselect_on_zero_balance demo 0 (state funded) action
                     (obj [("0a", funded)]) (JStr "0a") eq_refl eq_refl eq_refl)
              funded 3%Z 1%Z eq_refl eq_refl eq_refl _).
    discriminate.
Defined.

(** *** The PIN gate *)

(** C9. [resolve_lock_wallet_promise] on a state whose [lockWalletPromise]
    holds a resolver calls that resolver, once, with the payload of the
    action, and returns the state with [lockWalletPromise] set to [null];
    on a state whose [lockWalletPromise] holds no function ([null], as in
    the initial state and after a resolution) it throws a TypeError, calls
    nothing and returns no state. *)
Theorem resolve_lock_wallet_promise_gate (E : Env) (now : Z)
    (s : gmap string JsVal) (action : JsVal) :
  get action "type" = mret (JStr "resolve_lock_wallet_promise") →
  let slot := field (JObj s) "lockWalletPromise" in
  (∀ h : nat, slot = JFun h →
     rootReducer E now (JObj s) action
       = Run [ResolverCalled h (field action "payload")]
             (inr (JObj (<["lockWalletPromise" := JNull]> s)))) ∧
  ((∀ h : nat, slot ≠ JFun h) →
     rootReducer E now (JObj s) action = throw TypeError).
Proof.
  intros Htype slot.
  rewrite reduce_resolve_lock_wallet_promise by done.
  unfold onResolveLockWalletPromise.
  rewrite get_obj, bind_ret_l.
  rewrite (get_ok action) by exact (get_not_nullish _ _ _ Htype).
  rewrite bind_ret_l. fold slot. split.
  - by intros h ->.
  - intros Hnone. destruct slot; try reflexivity. by destruct (Hnone h).
Qed.

Lemma resolve_lock_wallet_promise_gate_witness :
  let action := action_of "resolve_lock_wallet_promise" (JStr "1234") in
  let armed := <["lockWalletPromise" := JFun 7]> (own_props (initialState demo)) in
  rootReducer demo 0 (JObj armed) action
    = Run [ResolverCalled 7 (JStr "1234")]
          (inr (JObj (<["lockWalletPromise" := JNull]> armed))) ∧
  rootReducer demo 0 (initialState demo) action = throw TypeError.
Proof.
  intros action armed. split.
  - exact (proj1 (resolve_lock_wallet_promise_gate demo 0 armed action eq_refl)
             7 eq_refl).
  - refine (proj2 (resolve_lock_wallet_promise_gate demo 0
                     (own_props (initialState demo)) action eq_refl) _).
    discriminate.
Defined.

(** *** History *)

Lemma find_index_none (p : JsVal → M bool) (l : list JsVal) (i : Z) :
  Forall (λ x, p x = mret false) l → find_index p l i = mret (-1)%Z.
Proof.
  intros Hall. revert i.
  induction Hall as [|x l Hx _ IH]; intros i; simpl; [done|].
  by rewrite Hx, bind_ret_l.
Qed.

Lemma same_tx_false (E : Env) (tx el : JsVal) :
  nullish tx = false →
  nullish el = false ∧ seq_eq E (field el "tx_id") (field tx "tx_id") = false →
  same_tx E tx el = mret false.
Proof.
  intros Htx [Hel Hne]. unfold same_tx.
  by rewrite (get_ok el), bind_ret_l, (get_ok tx), bind_ret_l, Hne.
Qed.

Lemma has_data_truthy (v x : JsVal) :
  own v "data" = Some x → truthy v = true.
Proof. by destruct v. Qed.

(** [UPDATE_TX_HISTORY] where the handler returns: for a token with no
    entry in [tokensHistory] it returns the state as it is, and for a token
    whose entry holds, in [data], a history in which no element has the id
    of the transaction, it returns the state with that history copied
    element for element: nothing is replaced and nothing is appended. *)
Theorem update_tx_history_miss (E : Env) (s : gmap string JsVal)
    (action tokensHistory : JsVal) :
  nullish action = false →
  nullish (field action "payload") = false →
  s !! "tokensHistory" = Some tokensHistory →
  nullish tokensHistory = false →
  let tx := at_path action ["payload"; "tx"] in
  let tokenId := at_path action ["payload"; "tokenId"] in
  (own tokensHistory (to_str tokenId) = None →
   onUpdateTxHistory E (JObj s) action = mret (JObj s)) ∧
  (∀ (entry : JsVal) (es : list JsVal) (ps : gmap string JsVal),
     own tokensHistory (to_str tokenId) = Some entry →
     own entry "data" = Some (JArr es ps) →
     nullish tx = false →
     Forall (λ el, nullish el = false ∧
                   seq_eq E (field el "tx_id") (field tx "tx_id") = false) es →
     onUpdateTxHistory E (JObj s) action
       = mret (JObj (<["tokensHistory" :=
                         JObj (<[to_str tokenId :=
                                   JObj (<["data" := JArr es ∅]> (own_props entry))]>
                                 (own_props tokensHistory))]> s))).
Proof.
  intros Ha Hp Hth Hnn tx tokenId. unfold onUpdateTxHistory.
  rewrite (get_ok action) by done. rewrite bind_ret_l.
  rewrite !(get_ok (field action "payload")) by done.
  rewrite !bind_ret_l, get_obj, bind_ret_l, field_obj, Hth. simpl default.
  rewrite (get_ok tokensHistory) by done. rewrite bind_ret_l.
  change (field (field action "payload") "tokenId") with tokenId.
  change (field (field action "payload") "tx") with tx.
  split.
  - intros Habsent. unfold field at 1 2. by rewrite Habsent.
  - intros entry es ps Hentry Hdata Htx Hmiss.
    rewrite (field_own _ _ _ Hentry), (has_data_truthy _ _ Hdata). simpl negb.
    cbv iota.
    rewrite (get_ok entry) by exact (own_not_nullish _ _ _ Hdata).
    rewrite bind_ret_l, (field_own _ _ _ Hdata).
    unfold onUpdateTxHistory_data. simpl spread_iter.
    rewrite bind_ret_l, find_index_none, bind_ret_l.
    + change (-1 <? 0)%Z with true. cbv iota. rewrite bind_ret_l.
      unfold put_entity. by rewrite get_obj, bind_ret_l, field_obj, Hth.
    + eapply Forall_impl; [exact Hmiss|]. intros el. by apply same_tx_false.
Qed.

Lemma update_tx_history_miss_witness :
  let A := obj [("tx_id", JStr "1"); ("is_voided", JBool false)] in
  let record := obj [("status", JStr "ready"); ("data", JArr [A] ∅)] in
  let state := <["tokensHistory" := obj [("0a", record)]]>
                 (own_props (initialState demo)) in
  let tx := obj [("tx_id", JStr "3"); ("is_voided", JBool true)] in
  let action (tokenId : string) :=
    obj [("type", JStr "UPDATE_TX_HISTORY");
         ("payload", obj [("tx", tx); ("tokenId", JStr tokenId);
                          ("balance", JNum 5)])] in
  onUpdateTxHistory demo (JObj state) (action "0b") = mret (JObj state) ∧
  onUpdateTxHistory demo (JObj state) (action "0a") = mret (JObj state).
Proof.
  intros A record state tx action. split.
  - exact (proj1 (update_tx_history_miss demo state (action "0b")
                    (obj [("0a", record)]) eq_refl eq_refl eq_refl eq_refl)
             eq_refl).
  - rewrite (proj2 (update_tx_history_miss demo state (action "0a")
                      (obj [("0a", record)]) eq_refl eq_refl eq_refl eq_refl)
               record [A] ∅ eq_refl eq_refl eq_refl).
    + reflexivity.
    + by repeat constructor.
Defined.

(** The same for every state: an entry without [data] makes the handler
    throw. *)
Lemma update_tx_history_no_data (E : Env) (s : gmap string JsVal)
    (action tokensHistory entry : JsVal) :
  nullish action = false →
  nullish (field action "payload") = false →
  s !! "tokensHistory" = Some tokensHistory →
  own tokensHistory (to_str (at_path action ["payload"; "tokenId"])) = Some entry →
  truthy entry = true →
  own entry "data" = None →
  onUpdateTxHistory E (JObj s) action = throw TypeError.
Proof.
  intros Ha Hp Hth Hentry Htruthy Hdata. unfold onUpdateTxHistory.
  rewrite (get_ok action) by done. rewrite bind_ret_l.
  rewrite !(get_ok (field action "payload")) by done.
  rewrite !bind_ret_l, get_obj, bind_ret_l, field_obj, Hth. simpl default.
  rewrite (get_ok tokensHistory) by exact (own_not_nullish _ _ _ Hentry).
  rewrite bind_ret_l.
  change (field (field action "payload") "tokenId")
    with (at_path action ["payload"; "tokenId"]).
  rewrite (field_own _ _ _ Hentry), Htruthy. simpl negb. cbv iota.
  rewrite (get_ok entry) by by destruct entry.
  assert (Hnone : field entry "data" = JUndefined)
    by (unfold field; by rewrite Hdata).
  by rewrite bind_ret_l, Hnone.
Qed.

(** C10. [UPDATE_TX_HISTORY] for a token whose entry has no [data]: the
    entry is there, no element of it has the id of the transaction, and the
    update is not dropped: the handler spreads [tokenHistory.data], which
    is [undefined], and throws a TypeError. The store makes such entries
    itself: [token_invalidate_history] leaves [{status}], and a first
    [token_fetch_history_requested] leaves [{status, oldStatus}]. The
    sibling [update_token_history] reads the same [data] with [[]] for a
    default, and returns. *)
Theorem update_tx_history_throws_without_data :
  let named (type : string) := obj [("type", JStr type); ("tokenId", JStr "0a")] in
  let update :=
    action_of "UPDATE_TX_HISTORY"
      (obj [ ("tx", ws_tx "3" false); ("tokenId", JStr "0a");
             ("balance", JNum 5) ]) in
  let page :=
    action_of "update_token_history"
      (obj [("token", JStr "0a"); ("newHistory", JArr [] ∅)]) in
  let run (action state : JsVal) := rootReducer demo 0 state action in
  let invalidated := run (named "token_invalidate_history") (initialState demo) in
  let requested :=
    run (named "token_fetch_history_requested") (initialState demo) in
  then_read invalidated ["tokensHistory"; "0a"]
    = mret (obj [("status", JStr "invalidated")]) ∧
  (invalidated ≫= run update) = throw TypeError ∧
  then_read requested ["tokensHistory"; "0a"]
    = mret (obj [("status", JStr "loading"); ("oldStatus", JUndefined)]) ∧
  (requested ≫= run update) = throw TypeError ∧
  (invalidated ≫= λ state, onUpdateTxHistory demo state update)
    = throw TypeError ∧
  then_read (invalidated ≫= run page) ["tokensHistory"; "0a"]
    = mret (obj [("status", JStr "invalidated"); ("data", JArr [] ∅)]).
Proof.
  intros named update page run invalidated requested.
  repeat split; by vm_compute.
Qed.

(** *** Status bookkeeping *)

Lemma lodash_get_plain (object dflt : JsVal) (id : string) :
  path_syntax id = false →
  lodash_get object (JStr id) dflt =
    if nullish object then dflt
    else match field object id with JUndefined => dflt | r => r end.
Proof.
  intros Hid. unfold lodash_get, lodash_path. rewrite Hid.
  destruct (nullish object) eqn:Hn; [done|].
  change (negb false || has object id) with true. cbv iota.
  unfold lodash_walk. by rewrite Hn.
Qed.

(** The [oldState.status] that the status handlers read. *)
Lemma old_status_read (coll dflt : JsVal) (id : string) :
  path_syntax id = false →
  field coll id ≠ JNull →
  nullish dflt = false →
  (field coll id = JUndefined → field dflt "status" = JUndefined) →
  get (lodash_get coll (JStr id) dflt) "status"
    = mret (field (field coll id) "status").
Proof.
  intros Hid Hnull Hd Hds. rewrite lodash_get_plain by done.
  destruct (nullish coll) eqn:Hn.
  - rewrite get_ok, Hds by (done || by destruct coll). by destruct coll.
  - destruct (field coll id) eqn:Hf;
      first [by rewrite get_ok | by rewrite get_ok, Hds].
Qed.

Lemma put_entity_eq (s : gmap string JsVal) (coll id : string) (entity : JsVal) :
  put_entity (JObj s) coll (JStr id) entity
    = mret (JObj (<[coll := JObj (<[id := entity]>
                                    (own_props (field (JObj s) coll)))]> s)).
Proof. unfold put_entity. by rewrite get_obj, bind_ret_l. Qed.

Lemma field_insert (m : gmap string JsVal) (k : string) (v : JsVal) :
  field (JObj (<[k := v]> m)) k = v.
Proof. unfold field. simpl own. by rewrite lookup_insert_eq. Qed.

Lemma put_entity_read (s : gmap string JsVal) (coll id : string)
    (entity : JsVal) (ks : list string) :
  at_path (JObj (<[coll := JObj (<[id := entity]>
                                   (own_props (field (JObj s) coll)))]> s))
          (coll :: id :: ks)
    = at_path entity ks.
Proof.
  unfold at_path. cbn [foldl]. by rewrite !field_insert.
Qed.

(** The common run of a status handler that reads [oldState.status] and
    writes it as the [oldStatus] of the record it stores. *)
Ltac old_status_kept :=
  intros s action id Hid Hact Hnull;
  pose proof (own_not_nullish _ _ _ Hact) as Ha;
  rewrite !(get_ok action) by done;
  rewrite !bind_ret_l, !get_obj, !bind_ret_l, (field_own _ _ _ Hact);
  rewrite old_status_read by done;
  rewrite bind_ret_l, put_entity_eq;
  eexists; split; [reflexivity|];
  rewrite put_entity_read; unfold at_path, obj, with_fields; cbn [foldl fst snd];
  by rewrite field_insert.

Lemma balance_requested_keeps (E : Env) :
  keeps_old_status "tokensBalance" "tokenId" (onTokenFetchBalanceRequested E).
Proof. unfold keeps_old_status, onTokenFetchBalanceRequested. old_status_kept. Qed.

Lemma balance_success_keeps (E : Env) (now : Z) :
  keeps_old_status "tokensBalance" "tokenId" (onTokenFetchBalanceSuccess E now).
Proof. unfold keeps_old_status, onTokenFetchBalanceSuccess. old_status_kept. Qed.

Lemma balance_failed_keeps (E : Env) :
  keeps_old_status "tokensBalance" "tokenId" (onTokenFetchBalanceFailed E).
Proof. unfold keeps_old_status, onTokenFetchBalanceFailed. old_status_kept. Qed.

Lemma history_requested_keeps (E : Env) :
  keeps_old_status "tokensHistory" "tokenId" (onTokenFetchHistoryRequested E).
Proof. unfold keeps_old_status, onTokenFetchHistoryRequested. old_status_kept. Qed.

Lemma history_success_keeps (E : Env) (now : Z) :
  keeps_old_status "tokensHistory" "tokenId" (onTokenFetchHistorySuccess E now).
Proof. unfold keeps_old_status, onTokenFetchHistorySuccess. old_status_kept. Qed.

Lemma history_failed_keeps (E : Env) :
  keeps_old_status "tokensHistory" "tokenId" (onTokenFetchHistoryFailed E).
Proof. unfold keeps_old_status, onTokenFetchHistoryFailed. old_status_kept. Qed.

Lemma proposal_requested_keeps (E : Env) :
  keeps_old_status "proposals" "proposalId" (onProposalFetchRequested E).
Proof. unfold keeps_old_status, onProposalFetchRequested. old_status_kept. Qed.

Lemma token_cache_requested_keeps (E : Env) (s : gmap string JsVal)
    (action : JsVal) (id : string) :
  path_syntax id = false →
  own action "tokenUid" = Some (JStr id) →
  at_path (JObj s) ["tokensCache"; id] ≠ JNull →
  at_path (JObj s) ["tokensCache"; id] ≠ JUndefined →
  ∃ s' : JsVal,
    onProposalTokenFetchRequested E (JObj s) action = mret s' ∧
    at_path s' ["tokensCache"; id; "oldStatus"]
      = at_path (JObj s) ["tokensCache"; id; "status"].
Proof.
  intros Hid Hact Hnull Hpresent. unfold onProposalTokenFetchRequested.
  pose proof (own_not_nullish _ _ _ Hact) as Ha.
  rewrite !(get_ok action) by done.
  rewrite !bind_ret_l, !get_obj, !bind_ret_l, (field_own _ _ _ Hact).
  rewrite old_status_read by done.
  rewrite bind_ret_l, put_entity_eq.
  eexists; split; [reflexivity|].
  rewrite put_entity_read. unfold at_path, obj, with_fields. cbn [foldl fst snd].
  by rewrite field_insert.
Qed.

Lemma invalidate_balance_record (E : Env) (s : gmap string JsVal)
    (action : JsVal) (id : string) :
  own action "tokenId" = Some (JStr id) →
  ∃ s' : JsVal,
    onTokenInvalidateBalance E (JObj s) action = mret s' ∧
    at_path s' ["tokensBalance"; id]
      = obj [("status", JStr (INVALIDATED (TOKEN_DOWNLOAD_STATUS E)))].
Proof.
  intros Hact. unfold onTokenInvalidateBalance.
  rewrite (get_ok action) by exact (own_not_nullish _ _ _ Hact).
  rewrite bind_ret_l, (field_own _ _ _ Hact), put_entity_eq.
  eexists; split; [reflexivity|]. by rewrite put_entity_read.
Qed.

Lemma invalidate_history_record (E : Env) (s : gmap string JsVal)
    (action : JsVal) (id : string) :
  own action "tokenId" = Some (JStr id) →
  ∃ s' : JsVal,
    onTokenInvalidateHistory E (JObj s) action = mret s' ∧
    at_path s' ["tokensHistory"; id]
      = obj [("status", JStr (INVALIDATED (TOKEN_DOWNLOAD_STATUS E)))].
Proof.
  intros Hact. unfold onTokenInvalidateHistory.
  rewrite (get_ok action) by exact (own_not_nullish _ _ _ Hact).
  rewrite bind_ret_l, (field_own _ _ _ Hact), put_entity_eq.
  eexists; split; [reflexivity|]. by rewrite put_entity_read.
Qed.

(** The first load of a balance: requested from absent, then success. *)
Lemma balance_first_load (E : Env) (now : Z) (s : gmap string JsVal)
    (id : string) (data : JsVal) :
  path_syntax id = false →
  at_path (JObj s) ["tokensBalance"; id] = JUndefined →
  ∃ s1 s2 : JsVal,
    onTokenFetchBalanceRequested E (JObj s) (obj [("tokenId", JStr id)]) = mret s1 ∧
    at_path s1 ["tokensBalance"; id]
      = obj [ ("status", JStr (LOADING (TOKEN_DOWNLOAD_STATUS E)));
              ("oldStatus", JUndefined) ] ∧
    onTokenFetchBalanceSuccess E now s1
      (obj [("tokenId", JStr id); ("data", data)]) = mret s2 ∧
    at_path s2 ["tokensBalance"; id]
      = obj [ ("status", JStr (READY (TOKEN_DOWNLOAD_STATUS E)));
              ("updatedAt", JNum now);
              ("data", data);
              ("oldStatus", JStr (LOADING (TOKEN_DOWNLOAD_STATUS E))) ].
Proof.
  intros Hid Habsent.
  assert (Hf : field (field (JObj s) "tokensBalance") id = JUndefined) by done.
  unfold onTokenFetchBalanceRequested, onTokenFetchBalanceSuccess.
  change (get (obj [("tokenId", JStr id)]) "tokenId") with (@mret M _ _ (JStr id)).
  rewrite bind_ret_l, get_obj, bind_ret_l.
  rewrite old_status_read by (done || by rewrite Hf).
  rewrite lodash_get_plain, Hf by done.
  rewrite bind_ret_l, put_entity_eq.
  eexists _, _. split; [reflexivity|]. rewrite put_entity_read.
  split; [by destruct (nullish _)|].
  change (get (obj [("tokenId", JStr id); ("data", data)]) "tokenId")
    with (@mret M _ _ (JStr id)).
  change (get (obj [("tokenId", JStr id); ("data", data)]) "data")
    with (@mret M _ _ data).
  rewrite !bind_ret_l, get_obj, bind_ret_l, (field_insert s "tokensBalance").
  rewrite old_status_read; [|done|by rewrite (field_insert _ id)|done|done].
  rewrite bind_ret_l, put_entity_eq. split; [reflexivity|].
  rewrite put_entity_read, (field_insert _ id).
  by destruct (nullish _).
Qed.

(** C3, as the code has it. Each of requested, success and failed, on a
    token balance and on a token history, and requested on a proposal,
    leaves a record whose [oldStatus] is the [status] the entity had just
    before, [undefined] for an entity that was not there; so does requested
    on the proposal token cache for an entity that is there. From absent, a
    balance request leaves [{status: LOADING, oldStatus: undefined}] and the
    success after it [{status: READY, updatedAt, data, oldStatus: LOADING}].
    Invalidating a balance or a history leaves the record
    [{status: INVALIDATED}], which has no [oldStatus]. *)
Theorem old_status_bookkeeping (E : Env) (now : Z) :
  keeps_old_status "tokensBalance" "tokenId" (onTokenFetchBalanceRequested E) ∧
  keeps_old_status "tokensBalance" "tokenId" (onTokenFetchBalanceSuccess E now) ∧
  keeps_old_status "tokensBalance" "tokenId" (onTokenFetchBalanceFailed E) ∧
  keeps_old_status "tokensHistory" "tokenId" (onTokenFetchHistoryRequested E) ∧
  keeps_old_status "tokensHistory" "tokenId" (onTokenFetchHistorySuccess E now) ∧
  keeps_old_status "tokensHistory" "tokenId" (onTokenFetchHistoryFailed E) ∧
  keeps_old_status "proposals" "proposalId" (onProposalFetchRequested E) ∧
  (∀ (s : gmap string JsVal) (action : JsVal) (id : string),
     path_syntax id = false →
     own action "tokenUid" = Some (JStr id) →
     at_path (JObj s) ["tokensCache"; id] ≠ JNull →
     at_path (JObj s) ["tokensCache"; id] ≠ JUndefined →
     ∃ s' : JsVal,
       onProposalTokenFetchRequested E (JObj s) action = mret s' ∧
       at_path s' ["tokensCache"; id; "oldStatus"]
         = at_path (JObj s) ["tokensCache"; id; "status"]) ∧
  (∀ (s : gmap string JsVal) (id : string) (data : JsVal),
     path_syntax id = false →
     at_path (JObj s) ["tokensBalance"; id] = JUndefined →
     ∃ s1 s2 : JsVal,
       onTokenFetchBalanceRequested E (JObj s) (obj [("tokenId", JStr id)])
         = mret s1 ∧
       at_path s1 ["tokensBalance"; id]
         = obj [ ("status", JStr (LOADING (TOKEN_DOWNLOAD_STATUS E)));
                 ("oldStatus", JUndefined) ] ∧
       onTokenFetchBalanceSuccess E now s1
         (obj [("tokenId", JStr id); ("data", data)]) = mret s2 ∧
       at_path s2 ["tokensBalance"; id]
         = obj [ ("status", JStr (READY (TOKEN_DOWNLOAD_STATUS E)));
                 ("updatedAt", JNum now);
                 ("data", data);
                 ("oldStatus", JStr (LOADING (TOKEN_DOWNLOAD_STATUS E))) ]) ∧
  (∀ (s : gmap string JsVal) (action : JsVal) (id : string),
     own action "tokenId" = Some (JStr id) →
     (∃ s' : JsVal,
        onTokenInvalidateBalance E (JObj s) action = mret s' ∧
        at_path s' ["tokensBalance"; id]
          = obj [("status", JStr (INVALIDATED (TOKEN_DOWNLOAD_STATUS E)))]) ∧
     (∃ s' : JsVal,
        onTokenInvalidateHistory E (JObj s) action = mret s' ∧
        at_path s' ["tokensHistory"; id]
          = obj [("status", JStr (INVALIDATED (TOKEN_DOWNLOAD_STATUS E)))])).
Proof.
  repeat split.
  - apply balance_requested_keeps.
  - apply balance_success_keeps.
  - apply balance_failed_keeps.
  - apply history_requested_keeps.
  - apply history_success_keeps.
  - apply history_failed_keeps.
  - apply proposal_requested_keeps.
  - apply token_cache_requested_keeps.
  - apply balance_first_load.
  - by apply invalidate_balance_record.
  - by apply invalidate_history_record.
Qed.

Lemma old_status_bookkeeping_witness :
  let ready := obj [("status", JStr "ready"); ("updatedAt", JNum 5);
                    ("data", obj [("available", JNum 3); ("locked", JNum 0)])] in
  let state := <["tokensBalance" := obj [("0a", ready)]]>
                 (own_props (initialState demo)) in
  ∃ s' : JsVal,
    onTokenFetchBalanceRequested demo (JObj state) (obj [("tokenId", JStr "0a")])
      = mret s' ∧
    at_path s' ["tokensBalance"; "0a"; "oldStatus"] = JStr "ready".
Proof.
  intros ready state.
  refine (proj1 (old_status_bookkeeping demo 0) state
            (obj [("tokenId", JStr "0a")]) "0a" eq_refl eq_refl _).
  discriminate.
Defined.

(** [oldStatus] after the step differs from the status before it, at the
    entity 0a of the given state. *)
Ltac refute_keeps Hkeeps st act :=
  destruct (Hkeeps st act "0a") as (s' & Hs' & Hold); [done|done|done|];
  match type of Hold with
  | at_path s' ?path = _ =>
      change (at_path s' path)
        with (match outcome (mret s' : M JsVal) with
              | inr x => at_path x path
              | inl _ => JNull
              end) in Hold
  end;
  rewrite <-Hs' in Hold; vm_compute in Hold; discriminate.

(** C3 as stated fails on the transitions that store a record without
    reading the status before it: both invalidations, success and failed
    of a proposal, and the three transitions of the proposal token cache
    (requested for an entity that is not there). *)
Lemma old_status_not_kept :
  ¬ keeps_old_status "tokensBalance" "tokenId" (onTokenInvalidateBalance demo) ∧
  ¬ keeps_old_status "tokensHistory" "tokenId" (onTokenInvalidateHistory demo) ∧
  ¬ keeps_old_status "proposals" "proposalId" (onProposalFetchSuccess demo 9) ∧
  ¬ keeps_old_status "proposals" "proposalId" (onProposalFetchFailed demo 9) ∧
  ¬ keeps_old_status "tokensCache" "tokenUid" (onProposalTokenFetchRequested demo) ∧
  ¬ keeps_old_status "tokensCache" "tokenUid" (onProposalTokenFetchSuccess demo) ∧
  ¬ keeps_old_status "tokensCache" "tokenUid" (onProposalTokenFetchFailed demo).
Proof.
  pose (loading := obj [("id", JStr "0a"); ("status", JStr "loading");
                        ("oldStatus", JStr "invalidated")]).
  pose (state := λ coll : string,
          <[coll := obj [("0a", loading)]]> (own_props (initialState demo))).
  pose (action := λ idField : string,
          obj [ (idField, JStr "0a");
                ("data", obj [("symbol", JStr "CAT"); ("name", JStr "Cat")]);
                ("errorMessage", JStr "timeout") ]).
  repeat split; intros Hkeeps.
  - refute_keeps Hkeeps (state "tokensBalance") (action "tokenId").
  - refute_keeps Hkeeps (state "tokensHistory") (action "tokenId").
  - refute_keeps Hkeeps (state "proposals") (action "proposalId").
  - refute_keeps Hkeeps (state "proposals") (action "proposalId").
  - refute_keeps Hkeeps (own_props (initialState demo)) (action "tokenUid").
  - refute_keeps Hkeeps (state "tokensCache") (action "tokenUid").
  - refute_keeps Hkeeps (state "tokensCache") (action "tokenUid").
Qed.

(** *** [update_tx] *)

(** C1. [update_tx] on a history kept as a bare sequence. For a
    transaction that is in the history, the entry is replaced where it
    stands: [A, B] becomes [A, B']. For a transaction that is not, nothing
    is appended: [findIndex] answers -1, the entry is written under the
    property name -1, and the history [A] stays the one-element sequence
    [A], where the claim has [A, C]. *)
Theorem update_tx_miss_writes_index_minus_one :
  let A := history_entry "1" 4 false in
  let B := history_entry "2" 6 false in
  let tokensHistory (h : list JsVal) := obj [("0a", JArr h ∅)] in
  then_read
    (rootReducer demo 0 (initial_with "tokensHistory" (tokensHistory [A; B]))
       (update_tx (ws_tx "2" true) 6))
    ["tokensHistory"; "0a"]
    = mret (JArr [A; history_entry "2" 6 true] ∅) ∧
  then_read
    (rootReducer demo 0 (initial_with "tokensHistory" (tokensHistory [A]))
       (update_tx (ws_tx "3" false) 5))
    ["tokensHistory"; "0a"]
    = mret (JArr [A] {["-1" := history_entry "3" 5 false]}) ∧
  then_read
    (rootReducer demo 0 (initial_with "tokensHistory" (tokensHistory [A]))
       (update_tx (ws_tx "3" false) 5))
    ["tokensHistory"; "0a"; "length"]
    = mret (JNum 1).
Proof. intros A B tokensHistory. repeat split; by vm_compute. Qed.

(** C5. [update_tx] on a state whose token history is the record of the
    typedef, [{status, oldStatus, updatedAt, data}]: the handler takes the
    record for the sequence, calls [findIndex] on it, and throws a
    TypeError; no state is returned. The sibling [UPDATE_TX_HISTORY] reads
    [data] of the same record and returns. *)
Theorem update_tx_throws_on_history_record :
  let A := history_entry "1" 4 false in
  let state := initial_with "tokensHistory" (obj [("0a", history_record [A])]) in
  rootReducer demo 0 state (update_tx (ws_tx "1" true) 4) = throw TypeError ∧
  then_read
    (rootReducer demo 0 state
       (action_of "UPDATE_TX_HISTORY"
          (obj [ ("tx", ws_tx "1" true); ("tokenId", JStr "0a");
                 ("balance", JNum 4) ])))
    ["tokensHistory"; "0a"; "data"]
    = mret (JArr [history_entry "1" 4 true] ∅).
Proof. intros A state. split; by vm_compute. Qed.

(** *** Token metadata *)

(** C7. [remove_token_metadata] for a token whose balance is zero removes
    the token from [tokenMetadata] and leaves it in [tokensBalance]: the
    sum is taken of [unlocked], a field the balance does not have, and the
    copy the handler deletes from is not the one it returns. With a balance
    that does have [unlocked] and sums to zero the token stays as well. *)
Theorem remove_token_metadata_keeps_balance :
  let balance (data : JsVal) :=
    obj [ ("status", JStr "ready"); ("oldStatus", JStr "loading");
          ("updatedAt", JNum 5); ("data", data) ] in
  let state (data : JsVal) :=
    with_fields (own_props (initialState demo))
      [ ("tokenMetadata", obj [("0a", obj [("id", JStr "0a")])]);
        ("tokensBalance", obj [("0a", balance data)]) ] in
  let zero := obj [("available", JNum 0); ("locked", JNum 0)] in
  let zero' := obj [("unlocked", JNum 0); ("locked", JNum 0)] in
  let action := action_of "remove_token_metadata" (JStr "0a") in
  then_read (rootReducer demo 0 (state zero) action) ["tokenMetadata"]
    = mret (obj []) ∧
  then_read (rootReducer demo 0 (state zero) action) ["tokensBalance"]
    = mret (obj [("0a", balance zero)]) ∧
  then_read (rootReducer demo 0 (state zero') action) ["tokensBalance"]
    = mret (obj [("0a", balance zero')]).
Proof. intros balance state zero zero' action. repeat split; by vm_compute. Qed.

(** ** Further properties of the reducer *)

(** *** Entities and their collections *)

Lemma lodash_get_entity (coll dflt : JsVal) (id : string) :
  path_syntax id = false →
  lodash_get coll (JStr id) dflt = or_default (field coll id) dflt.
Proof.
  intros Hid. rewrite lodash_get_plain by done.
  destruct (nullish coll) eqn:Hn; [by destruct coll|by destruct (field coll id)].
Qed.

Lemma or_default_not_nullish (entity dflt : JsVal) :
  entity ≠ JNull → nullish dflt = false → nullish (or_default entity dflt) = false.
Proof. by destruct entity. Qed.

Lemma put_entity_update (s : gmap string JsVal) (coll id : string)
    (f : JsVal → JsVal) :
  put_entity (JObj s) coll (JStr id) (f (at_path (JObj s) [coll; id]))
    = mret (entity_update coll id f s).
Proof. by rewrite put_entity_eq. Qed.

Lemma entity_update_read (s : gmap string JsVal) (coll id : string)
    (f : JsVal → JsVal) (ks : list string) :
  at_path (entity_update coll id f s) (coll :: id :: ks)
    = at_path (f (at_path (JObj s) [coll; id])) ks.
Proof. unfold entity_update. by rewrite put_entity_read. Qed.

Lemma entity_update_other_field (s : gmap string JsVal) (coll id k : string)
    (f : JsVal → JsVal) :
  k ≠ coll → field (entity_update coll id f s) k = field (JObj s) k.
Proof.
  intros Hk. unfold entity_update. rewrite !field_obj.
  by rewrite lookup_insert_ne.
Qed.

Lemma entity_update_other_entity (s c : gmap string JsVal) (coll id id' : string)
    (f : JsVal → JsVal) :
  s !! coll = Some (JObj c) → id' ≠ id →
  at_path (entity_update coll id f s) [coll; id'] = at_path (JObj s) [coll; id'].
Proof.
  intros Hc Hid. unfold entity_update, at_path. cbn [foldl].
  rewrite (field_insert s coll), (field_own (JObj s) coll _ Hc).
  unfold field. cbn [own own_props]. by rewrite lookup_insert_ne.
Qed.


(** What each status handler does, as one update of one entity. The name
    of the entity is a plain key and the collection does not hold [null]
    under it. *)
Ltac entity_step :=
  intros Hid Hact Hnull;
  pose proof (own_not_nullish _ _ _ Hact) as Ha;
  rewrite !(get_ok _ _ Ha), !bind_ret_l, ?get_obj, ?bind_ret_l,
    (field_own _ _ _ Hact), ?lodash_get_entity by done;
  rewrite ?get_ok by (by apply or_default_not_nullish);
  rewrite ?bind_ret_l, put_entity_eq;
  reflexivity.

Lemma onTokenFetchBalanceRequested_eq (E : Env) (s : gmap string JsVal)
    (action : JsVal) (id : string) :
  path_syntax id = false →
  own action "tokenId" = Some (JStr id) →
  at_path (JObj s) ["tokensBalance"; id] ≠ JNull →
  onTokenFetchBalanceRequested E (JObj s) action
    = mret (entity_update "tokensBalance" id
              (λ old, with_fields (own_props (or_default old (obj [])))
                        [ ("status", JStr (LOADING (TOKEN_DOWNLOAD_STATUS E)));
                          ("oldStatus", field (or_default old (obj [])) "status") ])
              s).
Proof. unfold onTokenFetchBalanceRequested. entity_step. Qed.

Lemma onTokenFetchBalanceSuccess_eq (E : Env) (now : Z) (s : gmap string JsVal)
    (action : JsVal) (id : string) :
  path_syntax id = false →
  own action "tokenId" = Some (JStr id) →
  at_path (JObj s) ["tokensBalance"; id] ≠ JNull →
  onTokenFetchBalanceSuccess E now (JObj s) action
    = mret (entity_update "tokensBalance" id
              (λ old, obj [ ("status", JStr (READY (TOKEN_DOWNLOAD_STATUS E)));
                            ("updatedAt", JNum now);
                            ("data", field action "data");
                            ("oldStatus", field (or_default old (obj [])) "status") ])
              s).
Proof. unfold onTokenFetchBalanceSuccess. entity_step. Qed.

Lemma onTokenFetchBalanceFailed_eq (E : Env) (s : gmap string JsVal)
    (action : JsVal) (id : string) :
  path_syntax id = false →
  own action "tokenId" = Some (JStr id) →
  at_path (JObj s) ["tokensBalance"; id] ≠ JNull →
  onTokenFetchBalanceFailed E (JObj s) action
    = mret (entity_update "tokensBalance" id
              (λ old, obj [ ("status", JStr (FAILED (TOKEN_DOWNLOAD_STATUS E)));
                            ("oldStatus", field (or_default old (obj [])) "status") ])
              s).
Proof. unfold onTokenFetchBalanceFailed. entity_step. Qed.

Lemma onTokenFetchHistoryRequested_eq (E : Env) (s : gmap string JsVal)
    (action : JsVal) (id : string) :
  path_syntax id = false →
  own action "tokenId" = Some (JStr id) →
  at_path (JObj s) ["tokensHistory"; id] ≠ JNull →
  onTokenFetchHistoryRequested E (JObj s) action
    = mret (entity_update "tokensHistory" id
              (λ old, with_fields (own_props (or_default old (obj [])))
                        [ ("status", JStr (LOADING (TOKEN_DOWNLOAD_STATUS E)));
                          ("oldStatus", field (or_default old (obj [])) "status") ])
              s).
Proof. unfold onTokenFetchHistoryRequested. entity_step. Qed.

Lemma onProposalFetchRequested_eq (E : Env) (s : gmap string JsVal)
    (action : JsVal) (id : string) :
  path_syntax id = false →
  own action "proposalId" = Some (JStr id) →
  at_path (JObj s) ["proposals"; id] ≠ JNull →
  onProposalFetchRequested E (JObj s) action
    = mret (entity_update "proposals" id
              (λ old,
                 with_fields (own_props (or_default old (obj [("id", JStr id)])))
                   [ ("status", JStr (LOADING (PROPOSAL_DOWNLOAD_STATUS E)));
                     ("oldStatus",
                      field (or_default old (obj [("id", JStr id)])) "status") ])
              s).
Proof. unfold onProposalFetchRequested. entity_step. Qed.

Lemma onProposalFetchSuccess_eq (E : Env) (now : Z) (s : gmap string JsVal)
    (action : JsVal) (id : string) :
  path_syntax id = false →
  own action "proposalId" = Some (JStr id) →
  at_path (JObj s) ["proposals"; id] ≠ JNull →
  onProposalFetchSuccess E now (JObj s) action
    = mret (entity_update "proposals" id
              (λ old,
                 with_fields (own_props (or_default old (obj [("id", JStr id)])))
                   [ ("status", JStr (READY (PROPOSAL_DOWNLOAD_STATUS E)));
                     ("updatedAt", JNum now);
                     ("data", field action "data") ])
              s).
Proof. unfold onProposalFetchSuccess. entity_step. Qed.

Lemma onProposalFetchFailed_eq (E : Env) (now : Z) (s : gmap string JsVal)
    (action : JsVal) (id : string) :
  path_syntax id = false →
  own action "proposalId" = Some (JStr id) →
  at_path (JObj s) ["proposals"; id] ≠ JNull →
  onProposalFetchFailed E now (JObj s) action
    = mret (entity_update "proposals" id
              (λ old,
                 obj [ ("id", JStr id);
                       ("password",
                        field (or_default old (obj [("id", JStr id)])) "password");
                       ("status", JStr (FAILED (PROPOSAL_DOWNLOAD_STATUS E)));
                       ("errorMessage", field action "errorMessage");
                       ("updatedAt", JNum now) ])
              s).
Proof. unfold onProposalFetchFailed. entity_step. Qed.

Lemma onProposalUpdate_eq (now : Z) (s : gmap string JsVal)
    (action : JsVal) (id : string) :
  path_syntax id = false →
  own action "proposalId" = Some (JStr id) →
  at_path (JObj s) ["proposals"; id] ≠ JNull →
  onProposalUpdate now (JObj s) action
    = mret (entity_update "proposals" id
              (λ old,
                 with_fields (own_props (or_default old (obj [("id", JStr id)])))
                   [ ("updatedAt", JNum now); ("data", field action "data") ])
              s).
Proof. unfold onProposalUpdate. entity_step. Qed.

Lemma onTokenFetchHistorySuccess_eq (E : Env) (now : Z) (s : gmap string JsVal)
    (action : JsVal) (id : string) :
  path_syntax id = false →
  own action "tokenId" = Some (JStr id) →
  at_path (JObj s) ["tokensHistory"; id] ≠ JNull →
  onTokenFetchHistorySuccess E now (JObj s) action
    = mret (entity_update "tokensHistory" id
              (λ old, obj [ ("status", JStr (READY (TOKEN_DOWNLOAD_STATUS E)));
                            ("updatedAt", JNum now);
                            ("data", field action "data");
                            ("oldStatus", field (or_default old (obj [])) "status") ])
              s).
Proof. unfold onTokenFetchHistorySuccess. entity_step. Qed.

Lemma onTokenFetchHistoryFailed_eq (E : Env) (s : gmap string JsVal)
    (action : JsVal) (id : string) :
  path_syntax id = false →
  own action "tokenId" = Some (JStr id) →
  at_path (JObj s) ["tokensHistory"; id] ≠ JNull →
  onTokenFetchHistoryFailed E (JObj s) action
    = mret (entity_update "tokensHistory" id
              (λ old, obj [ ("status", JStr (FAILED (TOKEN_DOWNLOAD_STATUS E)));
                            ("data", JArr [] ∅);
                            ("oldStatus", field (or_default old (obj [])) "status") ])
              s).
Proof. unfold onTokenFetchHistoryFailed. entity_step. Qed.

Lemma onTokenInvalidateBalance_eq (E : Env) (s : gmap string JsVal)
    (action : JsVal) (id : string) :
  path_syntax id = false →
  own action "tokenId" = Some (JStr id) →
  at_path (JObj s) ["tokensBalance"; id] ≠ JNull →
  onTokenInvalidateBalance E (JObj s) action
    = mret (entity_update "tokensBalance" id
              (λ _, obj [("status", JStr (INVALIDATED (TOKEN_DOWNLOAD_STATUS E)))])
              s).
Proof. unfold onTokenInvalidateBalance. entity_step. Qed.

Lemma onTokenInvalidateHistory_eq (E : Env) (s : gmap string JsVal)
    (action : JsVal) (id : string) :
  path_syntax id = false →
  own action "tokenId" = Some (JStr id) →
  at_path (JObj s) ["tokensHistory"; id] ≠ JNull →
  onTokenInvalidateHistory E (JObj s) action
    = mret (entity_update "tokensHistory" id
              (λ _, obj [("status", JStr (INVALIDATED (TOKEN_DOWNLOAD_STATUS E)))])
              s).
Proof. unfold onTokenInvalidateHistory. entity_step. Qed.

Lemma onProposalImported_eq (E : Env) (s : gmap string JsVal)
    (action : JsVal) (id : string) :
  path_syntax id = false →
  own action "proposalId" = Some (JStr id) →
  at_path (JObj s) ["proposals"; id] ≠ JNull →
  onProposalImported E (JObj s) action
    = mret (entity_update "proposals" id
              (λ _, obj [ ("id", JStr id);
                          ("password", field action "password");
                          ("status", JStr (INVALIDATED (PROPOSAL_DOWNLOAD_STATUS E))) ])
              s).
Proof. unfold onProposalImported. entity_step. Qed.

Lemma onProposalTokenFetchRequested_eq (E : Env) (s : gmap string JsVal)
    (action : JsVal) (id : string) :
  path_syntax id = false →
  own action "tokenUid" = Some (JStr id) →
  at_path (JObj s) ["tokensCache"; id] ≠ JNull →
  onProposalTokenFetchRequested E (JObj s) action
    = mret (entity_update "tokensCache" id
              (λ old,
                 let oldState :=
                   or_default old
                     (obj [ ("tokenUid", JStr id); ("symbol", JStr "");
                            ("name", JStr "");
                            ("status", JStr (LOADING (TOKEN_DOWNLOAD_STATUS E))) ]) in
                 with_fields (own_props oldState)
                   [ ("status", JStr (LOADING (TOKEN_DOWNLOAD_STATUS E)));
                     ("oldStatus", field oldState "status") ])
              s).
Proof. unfold onProposalTokenFetchRequested. entity_step. Qed.

Lemma onProposalTokenFetchSuccess_eq (E : Env) (s : gmap string JsVal)
    (action : JsVal) (id : string) :
  own action "tokenUid" = Some (JStr id) →
  nullish (field action "data") = false →
  onProposalTokenFetchSuccess E (JObj s) action
    = mret (entity_update "tokensCache" id
              (λ _, obj [ ("tokenUid", JStr id);
                          ("symbol", at_path action ["data"; "symbol"]);
                          ("name", at_path action ["data"; "name"]);
                          ("status", JStr (READY (TOKEN_DOWNLOAD_STATUS E))) ])
              s).
Proof.
  intros Hact Hdata. unfold onProposalTokenFetchSuccess.
  pose proof (own_not_nullish _ _ _ Hact) as Ha.
  rewrite !(get_ok _ _ Ha), !bind_ret_l, !(get_ok _ _ Hdata), !bind_ret_l.
  by rewrite (field_own _ _ _ Hact), put_entity_eq.
Qed.

Lemma onProposalTokenFetchFailed_eq (E : Env) (s : gmap string JsVal)
    (action : JsVal) (id : string) :
  path_syntax id = false →
  own action "tokenUid" = Some (JStr id) →
  at_path (JObj s) ["tokensCache"; id] ≠ JNull →
  onProposalTokenFetchFailed E (JObj s) action
    = mret (entity_update "tokensCache" id
              (λ _, obj [ ("id", JStr id); ("symbol", JStr ""); ("name", JStr "");
                          ("status", JStr (FAILED (TOKEN_DOWNLOAD_STATUS E)));
                          ("errorMessage", field action "errorMessage") ])
              s).
Proof. unfold onProposalTokenFetchFailed. entity_step. Qed.

(** Every status transition is an update of the one entity it is for. *)
Lemma status_step_is_update (E : Env) (now : Z) (coll idField : string)
    (reads_data : bool) (step : JsVal → JsVal → M JsVal)
    (action : JsVal) (id : string) :
  (coll, idField, reads_data, step) ∈ status_steps E now →
  names_entity action idField reads_data id →
  ∃ f : JsVal → JsVal,
    ∀ s : gmap string JsVal,
      at_path (JObj s) [coll; id] ≠ JNull →
      step (JObj s) action = mret (entity_update coll id f s).
Proof.
  intros Hin (Hid & Hact & Hdata). apply list_elem_of_In in Hin.
  unfold status_steps in Hin. simpl in Hin.
  repeat (destruct Hin as [Heq|Hin];
          [injection Heq as <- <- <- <-; eexists; intros s Hnull|]);
    [..|destruct Hin].
  - by apply onTokenFetchBalanceRequested_eq.
  - by apply onTokenFetchBalanceSuccess_eq.
  - by apply onTokenFetchBalanceFailed_eq.
  - by apply onTokenInvalidateBalance_eq.
  - by apply onTokenFetchHistoryRequested_eq.
  - by apply onTokenFetchHistorySuccess_eq.
  - by apply onTokenFetchHistoryFailed_eq.
  - by apply onTokenInvalidateHistory_eq.
  - by apply onProposalFetchRequested_eq.
  - by apply onProposalFetchSuccess_eq.
  - by apply onProposalFetchFailed_eq.
  - by apply onProposalUpdate_eq.
  - by apply onProposalImported_eq.
  - by apply onProposalTokenFetchRequested_eq.
  - apply onProposalTokenFetchSuccess_eq; [done|by apply Hdata].
  - by apply onProposalTokenFetchFailed_eq.
Qed.





(** X2. A status transition touches the one entity it is for: every other
    field of the state and every other entity of the collection is read
    after it as before. *)
Theorem status_step_frame (E : Env) (now : Z) (s m : gmap string JsVal)
    (coll idField : string) (reads_data : bool)
    (step : JsVal → JsVal → M JsVal) (action : JsVal) (id : string) :
  (coll, idField, reads_data, step) ∈ status_steps E now →
  names_entity action idField reads_data id →
  s !! coll = Some (JObj m) →
  at_path (JObj s) [coll; id] ≠ JNull →
  ∃ s' : JsVal,
    step (JObj s) action = mret s' ∧
    (∀ k : string, k ≠ coll → field s' k = field (JObj s) k) ∧
    (∀ id' : string, id' ≠ id →
       at_path s' [coll; id'] = at_path (JObj s) [coll; id']).
Proof.
  intros Hin Hnames Hm Hnull.
  destruct (status_step_is_update E now _ _ _ _ _ _ Hin Hnames) as [f Hf].
  rewrite (Hf s Hnull). eexists. split; [reflexivity|]. split.
  - intros k Hk. by apply entity_update_other_field.
  - intros id' Hid'. by apply (entity_update_other_entity s m).
Qed.

Lemma status_step_frame_witness :
  let ready := obj [("status", JStr "ready"); ("data", JArr [] ∅)] in
  let s := <["tokensHistory" := obj [("0a", ready)]]>
             (own_props (initialState demo)) in
  ∃ s' : JsVal,
    onTokenInvalidateHistory demo (JObj s) (obj [("tokenId", JStr "0b")])
      = mret s' ∧
    (∀ k : string, k ≠ "tokensHistory" → field s' k = field (JObj s) k) ∧
    (∀ id' : string, id' ≠ "0b" →
       at_path s' ["tokensHistory"; id'] = at_path (JObj s) ["tokensHistory"; id']).
Proof.
  intros ready s.
  apply (status_step_frame demo 0 s (<["0a" := ready]> ∅)
           "tokensHistory" "tokenId" false _
           (obj [("tokenId", JStr "0b")]) "0b").
  - do 7 apply list_elem_of_further. apply list_elem_of_here.
  - by repeat split.
  - reflexivity.
  - discriminate.
Defined.

Ltac not_among :=
  cbn [fmap list_fmap fst];
  repeat (apply not_elem_of_cons; split; [done|]); apply not_elem_of_nil.

Lemma record_not_null (entity : JsVal) :
  absent_or_record entity = true → entity ≠ JNull.
Proof. by destruct entity. Qed.

Lemma spread_keeps_field (entity dflt : JsVal) (k : string)
    (fields : list (string * JsVal)) :
  absent_or_record entity = true →
  default JUndefined (own_props dflt !! k) = JUndefined →
  k ∉ fields.*1 →
  field (with_fields (own_props (or_default entity dflt)) fields) k
    = field entity k.
Proof.
  intros Hrec Hd Hk. unfold with_fields.
  assert (Hbase : default JUndefined (own_props (or_default entity dflt) !! k)
                  = field entity k).
  { by destruct entity. }
  revert Hbase. generalize (own_props (or_default entity dflt)) as base.
  induction fields as [|[k' v] fields IH]; intros base Hbase; [done|].
  cbn [foldl fst snd]. apply IH.
  - intros Hin. apply Hk. by right.
  - rewrite lookup_insert_ne; [done|]. intros ->. apply Hk. by left.
Qed.

Lemma empty_record_field (k : string) :
  default JUndefined (own_props (obj []) !! k) = JUndefined.
Proof. unfold obj, with_fields. cbn [foldl own_props]. by rewrite lookup_empty. Qed.

(** X3. A request for a balance or for a history keeps what the record
    holds: but for [status] and [oldStatus], every field of the record,
    the loaded [data] and [updatedAt] among them, reads after the request
    as before. *)
Theorem request_keeps_loaded_data (E : Env) (k : string) :
  k ≠ "status" → k ≠ "oldStatus" →
  keeps_entity_field "tokensBalance" "tokenId" k (onTokenFetchBalanceRequested E) ∧
  keeps_entity_field "tokensHistory" "tokenId" k (onTokenFetchHistoryRequested E).
Proof.
  intros Hstatus Hold. split; intros s action id Hid Hact Hrec.
  - eexists. split.
    + apply onTokenFetchBalanceRequested_eq; [exact Hid|exact Hact|].
      exact (record_not_null _ Hrec).
    + rewrite entity_update_read. unfold at_path. cbn [foldl].
      apply spread_keeps_field; [exact Hrec|apply empty_record_field|].
      cbn [fmap list_fmap fst]. rewrite !not_elem_of_cons.
      split; [exact Hstatus|]. split; [exact Hold|]. apply not_elem_of_nil.
  - eexists. split.
    + apply onTokenFetchHistoryRequested_eq; [exact Hid|exact Hact|].
      exact (record_not_null _ Hrec).
    + rewrite entity_update_read. unfold at_path. cbn [foldl].
      apply spread_keeps_field; [exact Hrec|apply empty_record_field|].
      cbn [fmap list_fmap fst]. rewrite !not_elem_of_cons.
      split; [exact Hstatus|]. split; [exact Hold|]. apply not_elem_of_nil.
Qed.

Lemma request_keeps_loaded_data_witness :
  let loaded := obj [ ("status", JStr "ready"); ("updatedAt", JNum 5);
                      ("data", obj [("available", JNum 3); ("locked", JNum 0)]) ] in
  let s := <["tokensBalance" := obj [("0a", loaded)]]>
             (own_props (initialState demo)) in
  ∃ s' : JsVal,
    onTokenFetchBalanceRequested demo (JObj s) (obj [("tokenId", JStr "0a")])
      = mret s' ∧
    at_path s' ["tokensBalance"; "0a"; "data"]
      = obj [("available", JNum 3); ("locked", JNum 0)].
Proof.
  intros loaded s.
  refine (proj1 (request_keeps_loaded_data demo "data" _ _) s
            (obj [("tokenId", JStr "0a")]) "0a" eq_refl eq_refl eq_refl);
    discriminate.
Defined.

Lemma id_record_password (id : JsVal) :
  default JUndefined (own_props (obj [("id", id)]) !! "password") = JUndefined.
Proof.
  unfold obj, with_fields. cbn [foldl own_props fst snd].
  by rewrite lookup_insert_ne, lookup_empty.
Qed.

Ltac password_not_written :=
  cbn [fmap list_fmap fst]; rewrite !not_elem_of_cons;
  repeat (split; [discriminate|]); apply not_elem_of_nil.

Ltac password_kept_by_spread Hrec :=
  rewrite entity_update_read; unfold at_path; cbn [foldl];
  apply spread_keeps_field;
    [exact Hrec|apply id_record_password|password_not_written].

(** X4. The password of a proposal outlives its fetches: requested,
    success, failed and updated each leave the record of the proposal with
    the [password] it had. *)
Theorem proposal_password_retained (E : Env) (now : Z) :
  keeps_entity_field "proposals" "proposalId" "password" (onProposalFetchRequested E) ∧
  keeps_entity_field "proposals" "proposalId" "password" (onProposalFetchSuccess E now) ∧
  keeps_entity_field "proposals" "proposalId" "password" (onProposalFetchFailed E now) ∧
  keeps_entity_field "proposals" "proposalId" "password" (onProposalUpdate now).
Proof.
  split; [|split; [|split]]; intros s action id Hid Hact Hrec; eexists.
  - split.
    + apply onProposalFetchRequested_eq;
        [exact Hid|exact Hact|exact (record_not_null _ Hrec)].
    + password_kept_by_spread Hrec.
  - split.
    + apply onProposalFetchSuccess_eq;
        [exact Hid|exact Hact|exact (record_not_null _ Hrec)].
    + password_kept_by_spread Hrec.
  - split.
    + apply onProposalFetchFailed_eq;
        [exact Hid|exact Hact|exact (record_not_null _ Hrec)].
    + rewrite entity_update_read. unfold at_path. cbn [foldl].
      unfold obj at 1, with_fields at 1. cbn [foldl fst snd].
      rewrite field_obj.
      rewrite !(lookup_insert_ne _ _ "password") by discriminate.
      rewrite lookup_insert_eq. cbn [default from_option].
      unfold at_path in Hrec. cbn [foldl] in Hrec.
      destruct (field (field (JObj s) "proposals") id) eqn:Hentity;
        try discriminate Hrec.
      * apply id_record_password.
      * reflexivity.
  - split.
    + apply onProposalUpdate_eq;
        [exact Hid|exact Hact|exact (record_not_null _ Hrec)].
    + password_kept_by_spread Hrec.
Qed.

Lemma proposal_password_retained_witness :
  let tracked := obj [ ("id", JStr "p1"); ("password", JStr "abc");
                       ("status", JStr "loading") ] in
  let s := <["proposals" := obj [("p1", tracked)]]>
             (own_props (initialState demo)) in
  ∃ s' : JsVal,
    onProposalFetchFailed demo 9 (JObj s)
      (obj [("proposalId", JStr "p1"); ("errorMessage", JStr "timeout")])
      = mret s' ∧
    at_path s' ["proposals"; "p1"; "password"] = JStr "abc".
Proof.
  intros tracked s.
  exact (proj1 (proj2 (proj2 (proposal_password_retained demo 9))) s
           (obj [("proposalId", JStr "p1"); ("errorMessage", JStr "timeout")])
           "p1" eq_refl eq_refl eq_refl).
Defined.

(** *** Proposals *)

Lemma onProposalRemoved_eq (s p : gmap string JsVal) (action : JsVal)
    (id : string) :
  own action "proposalId" = Some (JStr id) →
  s !! "proposals" = Some (JObj p) →
  onProposalRemoved (JObj s) action
    = mret (JObj (<["proposals" := JObj (delete id p)]> s)).
Proof.
  intros Hact Hp. unfold onProposalRemoved.
  rewrite (get_ok action) by exact (own_not_nullish _ _ _ Hact).
  rewrite bind_ret_l, get_obj, bind_ret_l, (field_own _ _ _ Hact).
  by rewrite (field_own (JObj s) "proposals" _ Hp).
Qed.

(** X5. Removing a proposal that is not tracked gives back the state, and
    so does importing a proposal that is not tracked and removing it
    again: the removal deletes the key of the proposal and nothing else. *)
Theorem proposal_removed_undoes_import (E : Env) (s p : gmap string JsVal)
    (action : JsVal) (id : string) :
  own action "proposalId" = Some (JStr id) →
  s !! "proposals" = Some (JObj p) →
  p !! id = None →
  onProposalRemoved (JObj s) action = mret (JObj s) ∧
  (onProposalImported E (JObj s) action ≫= λ s', onProposalRemoved s' action)
    = mret (JObj s).
Proof.
  intros Hact Hp Hfresh. split.
  - rewrite (onProposalRemoved_eq s p action id) by done.
    by rewrite delete_id, insert_id.
  - unfold onProposalImported.
    rewrite !(get_ok action) by exact (own_not_nullish _ _ _ Hact).
    rewrite !bind_ret_l, (field_own _ _ _ Hact), put_entity_eq, bind_ret_l.
    rewrite (field_own (JObj s) "proposals" _ Hp). cbn [own_props].
    erewrite onProposalRemoved_eq; [|done|apply lookup_insert_eq].
    by rewrite delete_insert_eq, delete_id, insert_insert_eq, insert_id.
Qed.

Lemma proposal_removed_undoes_import_witness :
  let s := own_props (initialState demo) in
  let action := obj [("proposalId", JStr "p1"); ("password", JStr "abc")] in
  (onProposalImported demo (JObj s) action ≫= λ s', onProposalRemoved s' action)
    = mret (JObj s).
Proof.
  intros s action.
  exact (proj2 (proposal_removed_undoes_import demo s ∅ action "p1"
                  eq_refl eq_refl eq_refl)).
Defined.

(** *** The PIN gate, armed and resolved *)

Lemma reduce_lock_wallet_for_result (E : Env) (now : Z) (state action : JsVal) :
  state ≠ JUndefined →
  get action "type" = mret (JStr "lock_wallet_for_result") →
  rootReducer E now state action = onLockWalletForResult state action.
Proof. intros Hs Ht. dispatch Hs Ht. Qed.

(** X6. The gate holds one resolver and fires once. Arming it twice and
    resolving calls the second resolver only, with the result, and leaves
    the slot [null]; resolving once more throws a TypeError and calls
    nothing further. *)
Theorem pin_gate_one_shot (E : Env) (now : Z) (s : gmap string JsVal)
    (first second : nat) (result : JsVal) :
  let run := λ action state, rootReducer E now state action in
  let arm := λ h, run (action_of "lock_wallet_for_result" (JFun h)) in
  let resolve := run (action_of "resolve_lock_wallet_promise" result) in
  ((arm first (JObj s) ≫= arm second) ≫= resolve)
    = Run [ResolverCalled second result]
          (inr (JObj (<["lockWalletPromise" := JNull]> s))) ∧
  (((arm first (JObj s) ≫= arm second) ≫= resolve) ≫= resolve)
    = Run [ResolverCalled second result] (inl TypeError).
Proof.
  intros run arm resolve.
  assert (Harm : ∀ h s', arm h (JObj s')
                         = mret (JObj (<["lockWalletPromise" := JFun h]> s'))).
  { intros h s'. unfold arm, run.
    by rewrite reduce_lock_wallet_for_result. }
  assert (Hfire : ∀ h s', resolve (JObj (<["lockWalletPromise" := JFun h]> s'))
                  = Run [ResolverCalled h result]
                        (inr (JObj (<["lockWalletPromise" := JNull]> s')))).
  { intros h s'. unfold resolve, run.
    rewrite reduce_resolve_lock_wallet_promise by done.
    unfold onResolveLockWalletPromise.
    rewrite get_obj, bind_ret_l, field_insert.
    change (get (action_of "resolve_lock_wallet_promise" result) "payload")
      with (@mret M _ _ result).
    rewrite bind_ret_l. unfold with_fields. cbn [own_props foldl fst snd].
    rewrite insert_insert_eq. reflexivity. }
  assert (Hspent : ∀ s', resolve (JObj (<["lockWalletPromise" := JNull]> s'))
                         = throw TypeError).
  { intros s'. unfold resolve, run.
    rewrite reduce_resolve_lock_wallet_promise by done.
    unfold onResolveLockWalletPromise.
    by rewrite get_obj, bind_ret_l, field_insert. }
  rewrite Harm, bind_ret_l, Harm, bind_ret_l, insert_insert_eq, Hfire.
  split; [done|].
  unfold mbind, M_bind, bind. cbn [outcome log]. by rewrite Hspent.
Qed.

(** *** A transition with no handler *)

Lemma find_app_none {A} (f : A → bool) (l1 l2 : list A) :
  find f l1 = None → find f (l1 ++ l2) = find f l2.
Proof. induction l1 as [|x l1 IH]; simpl; [done|]. by destruct (f x). Qed.

(** X7. The reducer has a case for [SET_UNLEASH_CLIENT] and no handler
    behind it: where no earlier case has the same label, an action of that
    type makes the reducer throw a ReferenceError, whatever the state. *)
Theorem unleash_client_transition_throws (E : Env) (now : Z)
    (state action : JsVal) :
  get action "type" = mret (JStr (SET_UNLEASH_CLIENT (types E))) →
  SET_UNLEASH_CLIENT (types E) ∉ labels_before_unleash E now →
  rootReducer E now state action = throw ReferenceError.
Proof.
  intros Htype Hfirst. unfold rootReducer. rewrite Htype, bind_ret_l.
  rewrite <-(take_drop 52 (cases E now)).
  rewrite find_app_none.
  - change (drop 52 (cases E now))
      with ((SET_UNLEASH_CLIENT (types E), onSetUnleashClient)
              :: drop 53 (cases E now)).
    cbn [find]. unfold is_case at 1. cbn [fst seq_eq strict_eq].
    by rewrite String.eqb_refl.
  - apply find_no_case. intros c Hc Heq. apply Hfirst.
    injection Heq as ->. unfold labels_before_unleash.
    by apply list_elem_of_fmap_2.
Qed.

Lemma unleash_client_transition_throws_witness :
  rootReducer demo 0 (initialState demo) (action_of "SET_UNLEASH_CLIENT" JNull)
    = throw ReferenceError.
Proof.
  apply unleash_client_transition_throws; [reflexivity|].
  unfold labels_before_unleash. cbn. not_among.
Defined.

(** *** The selected token, off the claim's shape *)

Lemma add_undefined_not_zero (E : Env) (v : JsVal) :
  seq_eq E (js_add JUndefined v) (JNum 0) = false.
Proof. by destruct v as [| |[]| | | | | |]. Qed.

(** X8. The reselect rule takes a selected token with no entry in
    [tokensBalance] for a token of zero balance and selects the native
    token; and it takes no balance kept as a record for zero: where the
    entry has no [available] of its own, as the [{status, data}] record of
    the typedef, the state is returned as it is, whatever [data] holds. *)
Theorem reselect_off_shape (E : Env) (now : Z)
    (s : gmap string JsVal) (action tokensBalance X : JsVal) :
  get action "type" = mret (JStr "reset_selected_token_if_needed") →
  s !! "selectedToken" = Some X →
  s !! "tokensBalance" = Some tokensBalance →
  nullish tokensBalance = false →
  (own tokensBalance (to_str X) = None →
   rootReducer E now (JObj s) action
     = mret (JObj (<["selectedToken" := JStr (NATIVE_TOKEN_UID E)]> s))) ∧
  (∀ record : gmap string JsVal,
     own tokensBalance (to_str X) = Some (JObj record) →
     record !! "available" = None →
     rootReducer E now (JObj s) action = mret (JObj s)).
Proof.
  intros Htype Hsel Hbal Hnn.
  rewrite reduce_reset_selected_token_if_needed by done.
  unfold resetSelectedTokenIfNeeded.
  rewrite !get_obj, !bind_ret_l, !field_obj, Hsel, Hbal. simpl default.
  rewrite (get_ok _ _ Hnn), bind_ret_l. split.
  - intros Habsent.
    assert (Hnone : field tokensBalance (to_str X) = JUndefined)
      by (unfold field; by rewrite Habsent).
    rewrite Hnone. reflexivity.
  - intros record Hentry Hnone. rewrite (field_own _ _ _ Hentry).
    cbn [truthy]. rewrite !get_obj, !bind_ret_l, (field_obj record "available").
    rewrite Hnone. cbn [default from_option].
    by rewrite add_undefined_not_zero.
Qed.

Lemma reselect_off_shape_witness :
  let record := <["data" := obj [("available", JNum 0); ("locked", JNum 0)]]>
                  {["status" := JStr "ready"]} in
  let state (tokensBalance : JsVal) : gmap string JsVal :=
    <["tokensBalance" := tokensBalance]>
      (<["selectedToken" := JStr "0a"]> (own_props (initialState demo))) in
  let action := action_of "reset_selected_token_if_needed" JUndefined in
  rootReducer demo 0 (JObj (state (obj []))) action
    = mret (JObj (<["selectedToken" := JStr "00"]> (state (obj [])))) ∧
  rootReducer demo 0 (JObj (state (obj [("0a", JObj record)]))) action
    = mret (JObj (state (obj [("0a", JObj record)]))).
Proof.
  intros record state action. split.
  - exact (proj1 (reselect_off_shape demo 0 (state (obj [])) action (obj [])
                    (JStr "0a") eq_refl eq_refl eq_refl eq_refl) eq_refl).
  - exact (proj2 (reselect_off_shape demo 0 (state (obj [("0a", JObj record)]))
                    action (obj [("0a", JObj record)]) (JStr "0a")
                    eq_refl eq_refl eq_refl eq_refl) record eq_refl eq_refl).
Defined.

(** *** Token metadata *)

Lemma removeTokenMetadata_newBalance_returns (E : Env) (s : gmap string JsVal)
    (uid : JsVal) :
  (∀ stored : JsVal,
     own_props (field (JObj s) "tokensBalance") !! to_str uid = Some stored →
     nullish stored = false) →
  ∃ newBalance : gmap string JsVal,
    removeTokenMetadata_newBalance E (JObj s) uid = mret newBalance.
Proof.
  intros Hstored. unfold removeTokenMetadata_newBalance.
  rewrite get_obj, bind_ret_l. unfold has. cbn [own].
  set (newBalance := own_props (field (JObj s) "tokensBalance")) in *.
  destruct (newBalance !! to_str uid) as [stored|] eqn:Hlook; [|by eexists].
  rewrite get_obj, bind_ret_l, field_obj, Hlook. cbn [default from_option id].
  rewrite (get_ok stored) by (by apply Hstored).
  rewrite bind_ret_l.
  destruct (truthy (field stored "data")) eqn:Hdata; [|by eexists].
  assert (Hnn : nullish (field stored "data") = false)
    by (by destruct (field stored "data")).
  rewrite !(get_ok _ _ Hnn), !bind_ret_l.
  destruct (seq_eq E _ _); by eexists.
Qed.

(** X9. [remove_token_metadata] changes [tokenMetadata] and nothing else:
    it returns the state with the token deleted from [tokenMetadata], the
    other metadata kept, and every other field, [tokensBalance] among them,
    as it was. The balance stored for the token, if any, is not [null]. *)
Theorem remove_token_metadata_frame (E : Env) (now : Z)
    (s : gmap string JsVal) (action : JsVal) :
  get action "type" = mret (JStr "remove_token_metadata") →
  let uid := to_str (field action "payload") in
  (∀ stored : JsVal,
     own_props (field (JObj s) "tokensBalance") !! uid = Some stored →
     nullish stored = false) →
  rootReducer E now (JObj s) action
    = mret (JObj (<["tokenMetadata" :=
                      JObj (delete uid (own_props (field (JObj s) "tokenMetadata")))]>
                    s)).
Proof.
  intros Htype uid Hstored.
  rewrite reduce_remove_token_metadata by done. unfold removeTokenMetadata.
  rewrite (get_ok action) by exact (get_not_nullish _ _ _ Htype).
  rewrite bind_ret_l, get_obj, bind_ret_l.
  destruct (removeTokenMetadata_newBalance_returns E s _ Hstored) as [nb ->].
  rewrite bind_ret_l. fold uid. unfold has. cbn [own].
  set (meta := own_props (field (JObj s) "tokenMetadata")).
  destruct (meta !! uid) eqn:Hlook; [reflexivity|].
  by rewrite delete_id.
Qed.

Lemma remove_token_metadata_frame_witness :
  let s := <["tokensBalance" :=
               obj [("0a", obj [ ("status", JStr "ready");
                                 ("data", obj [("available", JNum 0);
                                               ("locked", JNum 0)]) ])]]>
             (<["tokenMetadata" := obj [("0a", obj [("id", JStr "0a")]);
                                        ("0b", obj [("id", JStr "0b")])]]>
                (own_props (initialState demo))) in
  rootReducer demo 0 (JObj s) (action_of "remove_token_metadata" (JStr "0a"))
    = mret (JObj (<["tokenMetadata" := obj [("0b", obj [("id", JStr "0b")])]]> s)).
Proof.
  intros s.
  rewrite (remove_token_metadata_frame demo 0 s
             (action_of "remove_token_metadata" (JStr "0a")) eq_refl).
  - reflexivity.
  - intros stored Hlook. vm_compute in Hlook. by injection Hlook as <-.
Defined.

(** *** Starting the wallet *)

(** Two maps with the same lookups. *)
Ltac same_lookups :=
  apply map_eq; intros ?k; rewrite !lookup_insert;
  repeat case_decide; congruence.

(** X10. The action that starts the wallet carries the words and the PIN.
    It is kept in the state while the start is under way, a success after
    it leaves [startWalletAction] [null], and a failure leaves the action
    there for the retry. *)
Theorem start_wallet_action_kept_until_success (E : Env)
    (s : gmap string JsVal) (action : JsVal) :
  (onStartWalletRequested E (JObj s) action ≫= onStartWalletSuccess E)
    = mret (JObj (<["startWalletAction" := JNull]>
                    (<["walletStartState" := JStr (READY (WALLET_STATUS E))]> s))) ∧
  (onStartWalletRequested E (JObj s) action ≫= onStartWalletFailed E)
    = mret (JObj (<["startWalletAction" := action]>
                    (<["walletStartState" := JStr (FAILED (WALLET_STATUS E))]> s))).
Proof.
  unfold onStartWalletRequested, onStartWalletSuccess, onStartWalletFailed.
  rewrite !bind_ret_l. unfold with_fields. cbn [foldl fst snd own_props].
  split; do 2 f_equal; same_lookups.
Qed.

(** *** Partial updates *)

Lemma field_insert_ne (m : gmap string JsVal) (k k' : string) (v : JsVal) :
  k ≠ k' → field (JObj (<[k' := v]> m)) k = field (JObj m) k.
Proof. intros Hne. rewrite !field_obj. by rewrite lookup_insert_ne. Qed.

Lemma field_union (m1 m2 : gmap string JsVal) (k : string) :
  field (JObj (m1 ∪ m2)) k = default (field (JObj m2) k) (m1 !! k).
Proof.
  rewrite !field_obj, lookup_union.
  by destruct (m1 !! k), (m2 !! k).
Qed.

(** X11. [partially_update_history_and_balance] overwrites key by key: a
    token of the payload's [tokensHistory] reads after it as the payload
    has it, every other token as the state had it; the same for
    [tokensBalance]; and no other field of the state changes. *)
Theorem partial_update_overwrites_by_key
    (s history balance : gmap string JsVal) (action : JsVal) :
  nullish action = false →
  nullish (field action "payload") = false →
  s !! "tokensHistory" = Some (JObj history) →
  s !! "tokensBalance" = Some (JObj balance) →
  let newHistory := own_props (at_path action ["payload"; "tokensHistory"]) in
  let newBalance := own_props (at_path action ["payload"; "tokensBalance"]) in
  ∃ s' : JsVal,
    partiallyUpdateHistoryAndBalance (JObj s) action = mret s' ∧
    (∀ token : string,
       at_path s' ["tokensHistory"; token]
         = default (at_path (JObj s) ["tokensHistory"; token])
                   (newHistory !! token)) ∧
    (∀ token : string,
       at_path s' ["tokensBalance"; token]
         = default (at_path (JObj s) ["tokensBalance"; token])
                   (newBalance !! token)) ∧
    (∀ k : string, k ≠ "tokensHistory" → k ≠ "tokensBalance" →
       field s' k = field (JObj s) k).
Proof.
  intros Ha Hp Hh Hb newHistory newBalance.
  unfold partiallyUpdateHistoryAndBalance.
  rewrite (get_ok action) by done. rewrite bind_ret_l.
  rewrite !(get_ok (field action "payload")) by done.
  rewrite !bind_ret_l, !get_obj, !bind_ret_l.
  rewrite (field_own (JObj s) "tokensHistory" _ Hh).
  rewrite (field_own (JObj s) "tokensBalance" _ Hb).
  eexists. split; [reflexivity|].
  unfold with_fields, assign2, at_path. cbn [foldl fst snd own_props].
  split; [|split].
  - intros token.
    rewrite (field_insert_ne _ "tokensHistory" "tokensBalance") by discriminate.
    rewrite field_insert, (field_own (JObj s) "tokensHistory" _ Hh).
    apply field_union.
  - intros token.
    rewrite field_insert, (field_own (JObj s) "tokensBalance" _ Hb).
    apply field_union.
  - intros k Hk1 Hk2. by rewrite !field_insert_ne.
Qed.

Lemma partial_update_overwrites_by_key_witness :
  let old := obj [("status", JStr "ready"); ("data", JArr [] ∅)] in
  let new := obj [("status", JStr "loading")] in
  let s := <["tokensHistory" := obj [("0a", old); ("0b", old)]]>
             (own_props (initialState demo)) in
  let action := action_of "partially_update_history_and_balance"
                  (obj [("tokensHistory", obj [("0a", new)]);
                        ("tokensBalance", obj [])]) in
  ∃ s' : JsVal,
    partiallyUpdateHistoryAndBalance (JObj s) action = mret s' ∧
    at_path s' ["tokensHistory"; "0a"] = new ∧
    at_path s' ["tokensHistory"; "0b"] = old.
Proof.
  intros old new s action.
  destruct (partial_update_overwrites_by_key s
              (<["0b" := old]> (<["0a" := old]> ∅)) ∅ action
              eq_refl eq_refl eq_refl eq_refl) as (s' & Hs' & Hhist & _ & _).
  exists s'. split; [exact Hs'|]. split.
  - exact (Hhist "0a").
  - exact (Hhist "0b").
Defined.

(** *** Histories *)

Lemma tx_index_lt (E : Env) (tx : JsVal) (history : list JsVal) (n : nat) :
  tx_index E tx history = Some n → (n < length history)%nat.
Proof.
  revert n. induction history as [|el rest IH]; intros n; simpl; [done|].
  destruct (seq_eq E _ _).
  - intros [= <-]. lia.
  - destruct (tx_index E tx rest) as [m|]; simpl; [|done].
    intros [= <-]. specialize (IH m eq_refl). lia.
Qed.

Lemma same_tx_eq (E : Env) (tx el : JsVal) :
  nullish tx = false → nullish el = false →
  same_tx E tx el = mret (seq_eq E (field el "tx_id") (field tx "tx_id")).
Proof.
  intros Htx Hel. unfold same_tx.
  by rewrite (get_ok el), bind_ret_l, (get_ok tx), bind_ret_l.
Qed.

Lemma find_index_tx (E : Env) (tx : JsVal) (history : list JsVal) (i : Z) :
  nullish tx = false →
  Forall (λ el, nullish el = false) history →
  find_index (same_tx E tx) history i
    = mret (match tx_index E tx history with
            | Some n => (i + Z.of_nat n)%Z
            | None => (-1)%Z
            end).
Proof.
  intros Htx Hall. revert i.
  induction Hall as [|el rest Hel _ IH]; intros i; [done|].
  cbn [find_index tx_index].
  rewrite (same_tx_eq E tx el Htx Hel), bind_ret_l.
  destruct (seq_eq E _ _).
  - f_equal. lia.
  - rewrite IH. destruct (tx_index E tx rest) as [n|]; simpl; [|done].
    f_equal. lia.
Qed.

Lemma getTxHistoryFromWSTx_eq (E : Env) (tx tokenUid balance allAuthority : JsVal) :
  nullish tx = false →
  isAllAuthority E tx = mret allAuthority →
  getTxHistoryFromWSTx E tx tokenUid balance
    = mret (tx_history tx tokenUid balance allAuthority).
Proof.
  intros Htx Hauth. unfold getTxHistoryFromWSTx.
  by rewrite !(get_ok tx), !bind_ret_l, Hauth, bind_ret_l by done.
Qed.

Lemma arr_set_in_range (es : list JsVal) (n : nat) (v : JsVal) :
  (n < length es)%nat → arr_set es ∅ (Z.of_nat n) v = JArr (<[n := v]> es) ∅.
Proof.
  intros Hn. unfold arr_set.
  destruct (Z.ltb_spec (Z.of_nat n) 0); [lia|].
  destruct (Z.ltb_spec (Z.of_nat n) (Z.of_nat (length es))); [|lia].
  by rewrite Nat2Z.id.
Qed.

(** X12. [UPDATE_TX_HISTORY] on a token whose entry holds its history in
    [data]: the first element with the id of the transaction is replaced,
    where it stands, by the entry made of the transaction; with no such
    element the history is copied as it is. Either way the history keeps
    its length and its order, and the other fields of the entry stay. *)
Theorem update_tx_history_in_place (E : Env) (s : gmap string JsVal)
    (action tokensHistory entry allAuthority : JsVal)
    (history : list JsVal) (ps : gmap string JsVal) :
  nullish action = false →
  nullish (field action "payload") = false →
  let tx := at_path action ["payload"; "tx"] in
  let tokenId := at_path action ["payload"; "tokenId"] in
  let balance := at_path action ["payload"; "balance"] in
  s !! "tokensHistory" = Some tokensHistory →
  own tokensHistory (to_str tokenId) = Some entry →
  own entry "data" = Some (JArr history ps) →
  nullish tx = false →
  Forall (λ el, nullish el = false) history →
  isAllAuthority E tx = mret allAuthority →
  let history' :=
    match tx_index E tx history with
    | Some n => <[n := tx_history tx tokenId balance allAuthority]> history
    | None => history
    end in
  length history' = length history ∧
  onUpdateTxHistory E (JObj s) action
    = mret (JObj (<["tokensHistory" :=
                      JObj (<[to_str tokenId :=
                                JObj (<["data" := JArr history' ∅]>
                                        (own_props entry))]>
                              (own_props tokensHistory))]> s)).
Proof.
  intros Ha Hp tx tokenId balance Hth Hentry Hdata Htx Hall Hauth history'.
  split.
  { unfold history'. destruct (tx_index E tx history); [|done].
    apply length_insert. }
  unfold onUpdateTxHistory.
  rewrite (get_ok action) by done. rewrite bind_ret_l.
  rewrite !(get_ok (field action "payload")) by done.
  rewrite !bind_ret_l, get_obj, bind_ret_l, field_obj, Hth. simpl default.
  rewrite (get_ok tokensHistory) by exact (own_not_nullish _ _ _ Hentry).
  rewrite bind_ret_l.
  change (field (field action "payload") "tokenId") with tokenId.
  change (field (field action "payload") "tx") with tx.
  change (field (field action "payload") "balance") with balance.
  rewrite (field_own _ _ _ Hentry), (has_data_truthy _ _ Hdata). simpl negb.
  cbv iota.
  rewrite (get_ok entry) by exact (own_not_nullish _ _ _ Hdata).
  rewrite bind_ret_l, (field_own _ _ _ Hdata).
  unfold onUpdateTxHistory_data. simpl spread_iter.
  rewrite bind_ret_l, (find_index_tx E tx history 0 Htx Hall), bind_ret_l.
  unfold history'.
  destruct (tx_index E tx history) as [n|] eqn:Hindex.
  - destruct (Z.ltb_spec (0 + Z.of_nat n) 0); [lia|].
    rewrite (getTxHistoryFromWSTx_eq E tx tokenId balance allAuthority Htx Hauth).
    rewrite bind_ret_l, bind_ret_l. rewrite Z.add_0_l.
    rewrite arr_set_in_range by exact (tx_index_lt E tx history n Hindex).
    unfold put_entity. by rewrite get_obj, bind_ret_l, field_obj, Hth.
  - change (-1 <? 0)%Z with true. cbv iota. rewrite bind_ret_l.
    unfold put_entity. by rewrite get_obj, bind_ret_l, field_obj, Hth.
Qed.

Lemma update_tx_history_in_place_witness :
  let A := history_entry "1" 4 false in
  let B := history_entry "2" 6 false in
  let s := <["tokensHistory" := obj [("0a", history_record [A; B])]]>
             (own_props (initialState demo)) in
  let action :=
    action_of "UPDATE_TX_HISTORY"
      (obj [ ("tx", ws_tx "2" true); ("tokenId", JStr "0a");
             ("balance", JNum 6) ]) in
  then_read (onUpdateTxHistory demo (JObj s) action)
    ["tokensHistory"; "0a"; "data"]
    = mret (JArr [A; history_entry "2" 6 true] ∅).
Proof.
  intros A B s action.
  destruct (update_tx_history_in_place demo s action
              (obj [("0a", history_record [A; B])]) (history_record [A; B])
              (JBool false) [A; B] ∅
              eq_refl eq_refl eq_refl eq_refl eq_refl eq_refl
              ltac:(by repeat constructor) eq_refl) as [_ ->].
  reflexivity.
Defined.

Lemma bind_assoc {A B C} (m : M A) (f : A → M B) (g : B → M C) :
  ((m ≫= f) ≫= g) = (m ≫= λ a, f a ≫= g).
Proof.
  unfold mbind, M_bind, bind. destruct m as [l [e|a]]; cbn; [done|].
  destruct (f a) as [l' [e|b]]; cbn; [done|].
  by rewrite app_assoc.
Qed.

Lemma arr_set_minus_one (es : list JsVal) (v : JsVal) :
  arr_set es ∅ (-1) v = JArr es {["-1" := v]}.
Proof. unfold arr_set. change (-1 <? 0)%Z with true. cbv iota. by rewrite insert_empty. Qed.

Lemma assign2_two (s : gmap string JsVal) (k1 k2 : string) (v1 v2 : JsVal) :
  assign2 (JObj s) (obj [(k1, v1); (k2, v2)]) = <[k2 := v2]> (<[k1 := v1]> s).
Proof.
  unfold assign2, obj, with_fields. cbn [foldl fst snd own_props].
  by rewrite <-!insert_union_l, (left_id_L ∅ (∪)).
Qed.

(** X13. [update_tx] on a history kept as a bare sequence never changes
    its length. Where an entry has the id of the transaction the first such
    entry is replaced where it stands; where none has, the sequence is left
    element for element as it was and the entry made of the transaction is
    stored beside it, under the property name -1, not appended. The
    balances of [updatedBalanceMap] overwrite those of the state key by
    key. *)
Theorem update_tx_keeps_history_length (E : Env) (now : Z)
    (s : gmap string JsVal) (action tokensHistory bal allAuthority : JsVal)
    (token : string) (history : list JsVal) (ps : gmap string JsVal) :
  get action "type" = mret (JStr "update_tx") →
  nullish (field action "payload") = false →
  let tx := at_path action ["payload"; "tx"] in
  let updatedBalanceMap := at_path action ["payload"; "updatedBalanceMap"] in
  at_path action ["payload"; "balances"] = obj [(token, bal)] →
  s !! "tokensHistory" = Some tokensHistory →
  own tokensHistory token = Some (JArr history ps) →
  nullish tx = false →
  Forall (λ el, nullish el = false) history →
  isAllAuthority E tx = mret allAuthority →
  let entry := tx_history tx (JStr token) bal allAuthority in
  let history' :=
    match tx_index E tx history with
    | Some n => <[n := entry]> history
    | None => history
    end in
  let beside : gmap string JsVal :=
    match tx_index E tx history with
    | Some _ => ∅
    | None => {["-1" := entry]}
    end in
  length history' = length history ∧
  rootReducer E now (JObj s) action
    = mret (JObj (<["tokensBalance" :=
                      JObj (own_props updatedBalanceMap
                            ∪ own_props (field (JObj s) "tokensBalance"))]>
                    (<["tokensHistory" :=
                         JObj (<[token := JArr history' beside]>
                                 (own_props tokensHistory))]> s))).
Proof.
  intros Htype Hp tx updatedBalanceMap Hbalances Hth Hstored Htx Hall Hauth
    entry history' beside.
  split.
  { unfold history'. destruct (tx_index E tx history); [|done].
    apply length_insert. }
  rewrite reduce_update_tx by done. unfold onUpdateTx.
  rewrite (get_ok action) by exact (get_not_nullish _ _ _ Htype).
  rewrite bind_ret_l.
  rewrite !(get_ok (field action "payload")) by done.
  rewrite !bind_ret_l.
  change (field (field action "payload") "balances")
    with (at_path action ["payload"; "balances"]).
  rewrite Hbalances.
  change (field (field action "payload") "tx") with tx.
  change (field (field action "payload") "updatedBalanceMap")
    with updatedBalanceMap.
  unfold entries. cbn [nullish obj with_fields foldl fst snd own_props].
  rewrite insert_empty, map_to_list_singleton, bind_ret_l.
  cbn [for_of]. unfold onUpdateTx_body.
  change (λ s' : gmap string JsVal, mret s') with (@mret M _ (gmap string JsVal)).
  rewrite bind_ret_r.
  rewrite !(get_obj s), bind_ret_l, (field_own (JObj s) "tokensHistory" _ Hth).
  rewrite (get_ok tokensHistory) by exact (own_not_nullish _ _ _ Hstored).
  rewrite bind_ret_l, (field_own _ _ _ Hstored).
  cbn [truthy array_findIndex spread_iter].
  rewrite (find_index_tx E tx history 0 Htx Hall), !bind_ret_l.
  rewrite (getTxHistoryFromWSTx_eq E tx (JStr token) bal allAuthority Htx Hauth).
  rewrite !bind_ret_l.
  fold entry. rewrite assign2_two. do 3 f_equal.
  unfold assign2. cbn [own_props].
  rewrite <-insert_union_l, (left_id_L ∅ (∪)). do 2 f_equal.
  unfold history', beside.
  destruct (tx_index E tx history) as [n|] eqn:Hindex.
  - rewrite Z.add_0_l.
    by rewrite arr_set_in_range by exact (tx_index_lt E tx history n Hindex).
  - by rewrite arr_set_minus_one.
Qed.

Lemma update_tx_keeps_history_length_witness :
  let A := history_entry "1" 4 false in
  let s := <["tokensHistory" := obj [("0a", JArr [A] ∅)]]>
             (own_props (initialState demo)) in
  then_read (rootReducer demo 0 (JObj s) (update_tx (ws_tx "3" false) 5))
    ["tokensHistory"; "0a"]
    = mret (JArr [A] {["-1" := history_entry "3" 5 false]}).
Proof.
  intros A s.
  destruct (update_tx_keeps_history_length demo 0 s
              (update_tx (ws_tx "3" false) 5) (obj [("0a", JArr [A] ∅)])
              (JNum 5) (JBool false) "0a" [A] ∅
              eq_refl eq_refl eq_refl eq_refl eq_refl eq_refl
              ltac:(by repeat constructor) eq_refl) as [_ ->].
  reflexivity.
Defined.

(** *** Registered tokens *)

Lemma bind_ext {A B} (m : M A) (f g : A → M B) :
  (∀ a, f a = g a) → (m ≫= f) = (m ≫= g).
Proof.
  intros Hfg. unfold mbind, M_bind, bind.
  destruct m as [l [e|a]]; cbn; [done|]. by rewrite Hfg.
Qed.

Lemma for_of_app {A S} (l1 l2 : list A) (body : A → S → M S) (s : S) :
  for_of (l1 ++ l2) body s = (for_of l1 body s ≫= for_of l2 body).
Proof.
  revert s. induction l1 as [|x l1 IH]; intros s; cbn [for_of app].
  - by rewrite bind_ret_l.
  - rewrite bind_assoc. apply bind_ext. intros s'. apply IH.
Qed.

Lemma getRegisteredTokens_step_eq (E : Env) (exclude token : JsVal)
    (tokens : list JsVal) :
  nullish token = false →
  getRegisteredTokens_step E exclude token tokens
    = mret (if registered_kept E exclude token
            then tokens ++ [token_data token] else tokens).
Proof.
  intros Hok. unfold getRegisteredTokens_step, registered_kept.
  rewrite !(get_ok token) by done.
  destruct (truthy exclude); cbn [negb orb]; rewrite !bind_ret_l.
  - by destruct (seq_eq E _ _); cbn [negb]; rewrite ?bind_ret_l.
  - done.
Qed.

Lemma getRegisteredTokens_step_throws (E : Env) (exclude token : JsVal)
    (tokens : list JsVal) :
  nullish token = true →
  getRegisteredTokens_step E exclude token tokens = throw TypeError.
Proof.
  intros Hnull. unfold getRegisteredTokens_step, get. rewrite Hnull.
  destruct (truthy exclude); cbn [negb]; by rewrite ?bind_ret_l.
Qed.

Lemma for_of_registered (E : Env) (exclude : JsVal) (yielded tokens : list JsVal) :
  Forall (λ token, nullish token = false) yielded →
  for_of yielded (getRegisteredTokens_step E exclude) tokens
    = mret (tokens ++ (token_data <$> List.filter (registered_kept E exclude) yielded)).
Proof.
  intros Hall. revert tokens.
  induction Hall as [|token rest Hok _ IH]; intros tokens; cbn [for_of List.filter].
  - by rewrite app_nil_r.
  - rewrite getRegisteredTokens_step_eq, bind_ret_l by done.
    destruct (registered_kept E exclude token); rewrite IH; [|done].
    by rewrite <-app_assoc.
Qed.

Lemma default_exclude_kept (E : Env) (exclude token : JsVal) :
  registered_kept E (match exclude with JUndefined => JBool false | _ => exclude end)
    token = registered_kept E exclude token.
Proof. by destruct exclude. Qed.

(** X14. [getRegisteredTokens] answers, in the order in which the storage
    yields them, the [{uid, name, symbol}] of the tokens it keeps: all of
    them, or with [excludeDefaultToken] those whose uid is not the native
    one. It adds, drops and reorders nothing else; and where the storage
    yields [undefined] or [null] the call throws, the tokens read before
    being lost. *)
Theorem getRegisteredTokens_keeps_order (E : Env) (excludeDefaultToken : JsVal)
    (yielded : list JsVal) :
  Forall (λ token, nullish token = false) yielded →
  getRegisteredTokens E yielded excludeDefaultToken
    = mret (token_data <$> List.filter (registered_kept E excludeDefaultToken) yielded) ∧
  getRegisteredTokens E yielded JUndefined = mret (token_data <$> yielded) ∧
  ∀ (bad : JsVal) (rest : list JsVal),
    nullish bad = true →
    getRegisteredTokens E (yielded ++ bad :: rest) excludeDefaultToken
      = throw TypeError.
Proof.
  intros Hall. unfold getRegisteredTokens. repeat split.
  - rewrite for_of_registered by done. cbn [app]. do 2 f_equal.
    apply filter_ext. intros token. apply default_exclude_kept.
  - rewrite for_of_registered by done. cbn [app]. do 2 f_equal.
    clear Hall. induction yielded as [|token rest IH]; [done|].
    cbn [List.filter]. unfold registered_kept at 1. cbn [truthy negb orb].
    by rewrite IH.
  - intros bad rest Hbad.
    rewrite for_of_app, for_of_registered, bind_ret_l by done.
    cbn [for_of]. by rewrite getRegisteredTokens_step_throws.
Qed.

Lemma getRegisteredTokens_keeps_order_witness :
  let token (uid : string) :=
    obj [("uid", JStr uid); ("name", JStr "n"); ("symbol", JStr "s");
         ("version", JNum 1)] in
  getRegisteredTokens demo [token "00"; token "0a"] (JBool true)
    = mret [obj [("uid", JStr "0a"); ("name", JStr "n"); ("symbol", JStr "s")]].
Proof.
  intros token.
  destruct (getRegisteredTokens_keeps_order demo (JBool true)
              [token "00"; token "0a"] ltac:(by repeat constructor))
    as [-> _].
  reflexivity.
Defined.

(** *** Token signatures *)

(** X15. The token signatures, over a store that answers what was last
    written to it: a signature added is the one read, also over an older
    one; a signature removed reads [null]; and neither touches the signature
    of another token. *)
Theorem token_signature_round_trip {Store : Type}
    (getTokenSignatures : Store → gmap string JsVal)
    (setTokenSignatures : gmap string JsVal → Store → Store)
    (uid : string) (signature : JsVal) (store : Store) :
  (∀ signatures st, getTokenSignatures (setTokenSignatures signatures st) = signatures) →
  let read := getTokenSignature Store getTokenSignatures in
  let add := addTokenSignature Store getTokenSignatures setTokenSignatures in
  let remove := removeTokenSignature Store getTokenSignatures setTokenSignatures in
  read uid (add uid signature store) = signature ∧
  read uid (remove uid store) = JNull ∧
  read uid (remove uid (add uid signature store)) = JNull ∧
  ∀ other, other ≠ uid →
    read other (add uid signature store) = read other store ∧
    read other (remove uid store) = read other store.
Proof.
  intros Hstore read add remove.
  unfold read, add, remove, getTokenSignature, addTokenSignature,
    removeTokenSignature.
  rewrite !Hstore. repeat split.
  - rewrite lookup_insert_eq, bool_decide_eq_true_2 by eauto.
    cbn [negb]. by rewrite field_insert.
  - rewrite lookup_delete_eq, bool_decide_eq_false_2; [done|].
    by intros [? [=]].
  - rewrite lookup_delete_eq, bool_decide_eq_false_2; [done|].
    by intros [? [=]].
  - rewrite lookup_insert_ne by done. by rewrite field_insert_ne.
  - rewrite lookup_delete_ne by done. by rewrite !field_obj, lookup_delete_ne.
Qed.

Lemma token_signature_round_trip_witness :
  let read := getTokenSignature (gmap string JsVal) id in
  let add := addTokenSignature (gmap string JsVal) id (λ signatures _, signatures) in
  read "0a" (add "0a" (JStr "f0") ∅) = JStr "f0" ∧ read "0b" (add "0a" (JStr "f0") ∅) = JNull.
Proof.
  intros read add.
  destruct (token_signature_round_trip (Store := gmap string JsVal) id
              (λ signatures _, signatures) "0a" (JStr "f0") ∅
              (λ _ _, eq_refl)) as (Hadd & _ & _ & Hother).
  split; [exact Hadd|].
  destruct (Hother "0b" ltac:(discriminate)) as [Hkept _].
  exact (eq_trans Hkept eq_refl).
Defined.

(** *** The native token *)

Lemma is_native_eq (E : Env) (e : JsVal) :
  nullish e = false →
  is_native E e = mret (seq_eq E (field e "uid") (JStr (NATIVE_TOKEN_UID E))).
Proof. intros He. unfold is_native. by rewrite (get_ok e), bind_ret_l. Qed.

Lemma find_index_native (E : Env) (tokens : list JsVal) (i : Z) :
  Forall (λ e, nullish e = false) tokens →
  find_index (is_native E) tokens i
    = mret (match native_index E tokens with
            | Some n => (i + Z.of_nat n)%Z
            | None => (-1)%Z
            end).
Proof.
  intros Hall. revert i.
  induction Hall as [|e rest He _ IH]; intros i; [done|].
  cbn [find_index native_index].
  rewrite (is_native_eq E e He), bind_ret_l.
  destruct (seq_eq E _ _).
  - f_equal. lia.
  - rewrite IH. destruct (native_index E rest) as [n|]; simpl; [|done].
    f_equal. lia.
Qed.

Lemma native_index_lt (E : Env) (tokens : list JsVal) (n : nat) :
  native_index E tokens = Some n → (n < length tokens)%nat.
Proof.
  revert n. induction tokens as [|e rest IH]; intros n; simpl; [done|].
  destruct (seq_eq E _ _).
  - intros [= <-]. lia.
  - destruct (native_index E rest) as [m|]; simpl; [|done].
    intros [= <-]. specialize (IH m eq_refl). lia.
Qed.

Lemma native_token_is_native (E : Env) (payload : JsVal) :
  seq_eq E (field (native_token E payload) "uid") (JStr (NATIVE_TOKEN_UID E)) = true.
Proof.
  unfold native_token, with_fields. cbn [foldl fst snd].
  rewrite field_insert. unfold seq_eq. cbn [strict_eq]. apply String.eqb_refl.
Qed.

Lemma native_index_insert (E : Env) (payload : JsVal) (tokens : list JsVal)
    (n : nat) :
  native_index E tokens = Some n →
  native_index E (<[n := native_token E payload]> tokens) = Some n.
Proof.
  revert n. induction tokens as [|e rest IH]; intros n; [done|].
  cbn [native_index].
  destruct (seq_eq E (field e "uid") _) eqn:He.
  - intros [= <-]. cbn [insert list_insert native_index].
    by rewrite native_token_is_native.
  - destruct (native_index E rest) as [m|]; simpl; [|done].
    intros [= <-].
    change (<[S m := native_token E payload]> (e :: rest))
      with (e :: <[m := native_token E payload]> rest).
    cbn [native_index]. by rewrite He, (IH m eq_refl).
Qed.

Lemma with_native_token_twice (E : Env) (payload : JsVal) (tokens : list JsVal) :
  with_native_token E payload (with_native_token E payload tokens)
    = with_native_token E payload tokens.
Proof.
  destruct (native_index E tokens) as [n|] eqn:Hn.
  - assert (with_native_token E payload tokens
            = <[n := native_token E payload]> tokens) as ->
      by (unfold with_native_token; by rewrite Hn).
    unfold with_native_token.
    rewrite (native_index_insert E payload tokens n Hn).
    apply list_insert_insert_eq.
  - assert (with_native_token E payload tokens
            = native_token E payload :: tokens) as ->
      by (unfold with_native_token; by rewrite Hn).
    unfold with_native_token. cbn [native_index].
    by rewrite native_token_is_native.
Qed.

Lemma with_native_token_ok (E : Env) (payload : JsVal) (tokens : list JsVal) :
  Forall (λ e, nullish e = false) tokens →
  Forall (λ e, nullish e = false) (with_native_token E payload tokens).
Proof.
  intros Hall. unfold with_native_token.
  destruct (native_index E tokens); [|by constructor].
  by apply Forall_insert.
Qed.

Lemma onSetNativeTokenData_eq (E : Env) (s : gmap string JsVal)
    (action : JsVal) (tokens : list JsVal) (ps : gmap string JsVal) :
  nullish action = false →
  nullish (field action "payload") = false →
  s !! "tokens" = Some (JArr tokens ps) →
  Forall (λ e, nullish e = false) tokens →
  let payload := field action "payload" in
  onSetNativeTokenData E (JObj s) action
    = mret (JObj
        (<["tokensCache" :=
             JObj (<[NATIVE_TOKEN_UID E :=
                       obj [ ("tokenUid", JStr (NATIVE_TOKEN_UID E));
                             ("symbol", field payload "symbol");
                             ("name", field payload "name");
                             ("status", JStr (READY (TOKEN_DOWNLOAD_STATUS E))) ]]>
                     (own_props (field (JObj s) "tokensCache")))]>
           (<["tokens" := JArr (with_native_token E payload tokens) ∅]>
              (<["nativeTokenData" := payload]> s)))).
Proof.
  intros Ha Hp Htokens Hall payload. unfold onSetNativeTokenData.
  rewrite (get_ok action), bind_ret_l by done. fold payload.
  rewrite !(get_obj s), bind_ret_l, (field_own (JObj s) "tokens" _ Htokens).
  cbn [spread_iter]. rewrite bind_ret_l.
  rewrite (find_index_native E tokens 0 Hall), !bind_ret_l.
  rewrite !(get_ok payload), !bind_ret_l by done.
  unfold with_fields at 1 3. cbn [foldl fst snd own_props].
  do 4 f_equal. fold (native_token E payload). unfold with_native_token.
  destruct (native_index E tokens) as [n|] eqn:Hn.
  - rewrite Z.add_0_l.
    destruct (Z.eqb_spec (Z.of_nat n) (-1)); [lia|].
    by rewrite arr_set_in_range by exact (native_index_lt E tokens n Hn).
  - done.
Qed.

Lemma insert3_twice (a b c : string) (x y z : JsVal) (s : gmap string JsVal) :
  <[a := x]> (<[b := y]> (<[c := z]> (<[a := x]> (<[b := y]> (<[c := z]> s)))))
    = <[a := x]> (<[b := y]> (<[c := z]> s)).
Proof. same_lookups. Qed.

(** X16. [set_native_token_data] is idempotent. The native token is
    written where the first token with the native uid stood, or at the head
    of the list where there was none, so the list grows by at most one
    token; a second run with the same payload finds that token, writes the
    same one again, and leaves the whole state as the first run left it. *)
Theorem set_native_token_data_idempotent (E : Env) (s : gmap string JsVal)
    (action : JsVal) (tokens : list JsVal) (ps : gmap string JsVal) :
  nullish action = false →
  nullish (field action "payload") = false →
  s !! "tokens" = Some (JArr tokens ps) →
  Forall (λ e, nullish e = false) tokens →
  let tokens' := with_native_token E (field action "payload") tokens in
  ∃ s' : JsVal,
    onSetNativeTokenData E (JObj s) action = mret s' ∧
    onSetNativeTokenData E s' action = mret s' ∧
    field s' "tokens" = JArr tokens' ∅ ∧
    native_index E tokens' = Some (default 0%nat (native_index E tokens)) ∧
    length tokens'
      = (length tokens + match native_index E tokens with
                         | Some _ => 0
                         | None => 1
                         end)%nat.
Proof.
  intros Ha Hp Htokens Hall tokens'.
  eexists. split; [by apply (onSetNativeTokenData_eq E s action tokens ps)|].
  repeat split.
  - rewrite (onSetNativeTokenData_eq E _ action tokens' ∅ Ha Hp).
    + subst tokens'. rewrite with_native_token_twice.
      rewrite field_insert. cbn [own_props]. rewrite insert_insert_eq.
      by rewrite insert3_twice.
    + rewrite lookup_insert_ne by discriminate. by rewrite lookup_insert_eq.
    + by apply with_native_token_ok.
  - rewrite field_insert_ne by discriminate. by rewrite field_insert.
  - unfold tokens', with_native_token.
    destruct (native_index E tokens) as [n|] eqn:Hn; cbn [default].
    + by apply native_index_insert.
    + cbn [native_index]. by rewrite native_token_is_native.
  - unfold tokens', with_native_token.
    destruct (native_index E tokens) as [n|]; cbn [length].
    + rewrite length_insert. lia.
    + lia.
Qed.

Lemma set_native_token_data_idempotent_witness :
  let info := obj [("symbol", JStr "HTR"); ("name", JStr "Hathor")] in
  let action := action_of "set_native_token_data" info in
  ∃ s' : JsVal,
    onSetNativeTokenData demo (initialState demo) action = mret s' ∧
    onSetNativeTokenData demo s' action = mret s' ∧
    field s' "tokens" = JArr [native_token demo info] ∅.
Proof.
  intros info action.
  destruct (set_native_token_data_idempotent demo (own_props (initialState demo))
              action [] ∅ eq_refl eq_refl eq_refl ltac:(constructor))
    as (s' & Hfirst & Hsecond & Htokens & _).
  exists s'. repeat split; assumption.
Defined.

(** *** Pages of a history *)

Lemma reduce_update_token_history (E : Env) (now : Z) (state action : JsVal) :
  state ≠ JUndefined →
  get action "type" = mret (JStr "update_token_history") →
  rootReducer E now state action = onUpdateTokenHistory state action.
Proof. intros Hs Ht. dispatch Hs Ht. Qed.

Lemma append_cons (x : ascii) (a b : string) :
  String x a +:+ b = String x (a +:+ b).
Proof. reflexivity. Qed.

Lemma append_nil_r (a : string) : a +:+ "" = a.
Proof. induction a as [|x a IH]; [done|]. by rewrite append_cons, IH. Qed.

Lemma append_assoc (a b c : string) : (a +:+ b) +:+ c = a +:+ (b +:+ c).
Proof. induction a as [|x a IH]; [done|]. by rewrite !append_cons, IH. Qed.

Lemma path_syntax_cons (c : ascii) (r : string) :
  path_syntax (String c r)
    = (Ascii.eqb c "."%char || Ascii.eqb c "["%char || Ascii.eqb c "]"%char)
      || path_syntax r.
Proof. reflexivity. Qed.

Lemma split_dots_plain (cur a b : string) :
  path_syntax a = false →
  split_dots cur (a +:+ b) = split_dots (cur +:+ a) b.
Proof.
  revert cur. induction a as [|c r IH]; intros cur Hplain.
  - change ("" +:+ b) with b. by rewrite append_nil_r.
  - rewrite path_syntax_cons in Hplain.
    apply orb_false_elim in Hplain as [Hc Hr].
    apply orb_false_elim in Hc as [Hc _].
    apply orb_false_elim in Hc as [Hc _].
    rewrite append_cons. cbn [split_dots]. rewrite Hc, (IH _ Hr).
    by rewrite append_assoc.
Qed.

Lemma path_syntax_data (token : string) :
  path_syntax (token +:+ ".data") = true.
Proof.
  induction token as [|c r IH]; [done|].
  rewrite append_cons, path_syntax_cons, IH. apply orb_true_r.
Qed.

Lemma lodash_get_data (m : gmap string JsVal) (token : string)
    (old : list JsVal) :
  path_syntax token = false →
  m !! (token +:+ ".data") = None →
  history_data (field (JObj m) token) = Some old →
  spread_iter (lodash_get (JObj m) (JStr (token +:+ ".data")) (JArr [] ∅))
    = mret old.
Proof.
  intros Hplain Hkey Hdata.
  unfold lodash_get, lodash_path, has. cbn [nullish own].
  rewrite path_syntax_data, Hkey. cbn [negb orb].
  rewrite (split_dots_plain "" token ".data" Hplain).
  change ("" +:+ token) with token.
  change (split_dots token ".data") with [token; "data"].
  cbn [lodash_walk nullish].
  unfold history_data in Hdata.
  destruct (nullish (field (JObj m) token)) eqn:Hnull.
  - destruct (field (JObj m) token); try discriminate Hnull;
      cbn in Hdata; by injection Hdata as <-.
  - destruct (field (field (JObj m) token) "data"); try discriminate Hdata;
      by injection Hdata as <-.
Qed.

(** X17. [update_token_history] appends the page to the history of the
    token: the entries already in [data] stay, in their order, before the
    new ones, and the other fields of the entry stay. Unlike
    [UPDATE_TX_HISTORY] it takes an entry without [data], and no entry at
    all, for the empty history. *)
Theorem update_token_history_appends (E : Env) (now : Z)
    (s m : gmap string JsVal) (action : JsVal) (token : string)
    (old new : list JsVal) (ps : gmap string JsVal) :
  get action "type" = mret (JStr "update_token_history") →
  nullish (field action "payload") = false →
  at_path action ["payload"; "token"] = JStr token →
  at_path action ["payload"; "newHistory"] = JArr new ps →
  path_syntax token = false →
  s !! "tokensHistory" = Some (JObj m) →
  m !! (token +:+ ".data") = None →
  history_data (field (JObj m) token) = Some old →
  rootReducer E now (JObj s) action
    = mret (JObj (<["tokensHistory" :=
                      JObj (<[token := JObj (<["data" := JArr (old ++ new) ∅]>
                                               (own_props (field (JObj m) token)))]>
                              m)]> s)).
Proof.
  intros Htype Hp Htoken Hnew Hplain Hth Hkey Hdata.
  rewrite reduce_update_token_history by done. unfold onUpdateTokenHistory.
  rewrite (get_ok action) by exact (get_not_nullish _ _ _ Htype).
  rewrite bind_ret_l.
  rewrite !(get_ok (field action "payload")) by done.
  rewrite !bind_ret_l.
  change (field (field action "payload") "token")
    with (at_path action ["payload"; "token"]).
  change (field (field action "payload") "newHistory")
    with (at_path action ["payload"; "newHistory"]).
  rewrite Htoken, Hnew.
  change (to_str (JStr token)) with token.
  rewrite (get_obj s), bind_ret_l, (field_own (JObj s) "tokensHistory" _ Hth).
  rewrite (get_obj m), bind_ret_l.
  rewrite (lodash_get_data m token old Hplain Hkey Hdata), bind_ret_l.
  cbn [spread_iter]. rewrite bind_ret_l.
  reflexivity.
Qed.

Lemma update_token_history_appends_witness :
  let page := action_of "update_token_history"
      (obj [("token", JStr "0a"); ("newHistory", JArr [history_entry "3" 5 false] ∅)]) in
  let s := <["tokensHistory" := obj [("0a", obj [("status", JStr "invalidated")])]]>
             (own_props (initialState demo)) in
  then_read (rootReducer demo 0 (JObj s) page) ["tokensHistory"; "0a"]
    = mret (obj [ ("status", JStr "invalidated");
                  ("data", JArr [history_entry "3" 5 false] ∅) ]).
Proof.
  intros page s.
  rewrite (update_token_history_appends demo 0 s
             (own_props (obj [("0a", obj [("status", JStr "invalidated")])]))
             page "0a" [] [history_entry "3" 5 false] ∅
             eq_refl eq_refl eq_refl eq_refl eq_refl eq_refl eq_refl eq_refl).
  by vm_compute.
Defined.
